(** * DeepseekMCP: the context cache and the retry executor

    A shallow embedding of [cache.go] and [retry.go] (with the parts of
    [models.go], the server and config records and Go's [time], [errors]
    and [fmt] packages they use), followed by the properties of the
    cache store and of [RetryWithBackoff].

    Conventions.
    - Go's [error] interface value is [option error]: [None] is [nil].
    - A [time.Duration] is an [int64] count of nanoseconds, here a [Z];
      integer additions that can leave the [int64] range wrap around.
    - A [time.Time] is an instant, here the [Z] number of nanoseconds
      since the Unix epoch; the monotonic reading and the location are
      not modelled, so every reading lives on one time line.
    - [float64] arithmetic is carried out exactly, over [Q]. Doubling a
      delay that started below [2^53] is exact on the hardware too; the
      product that gives the jitter is rounded there, with a relative
      error of about [2^-52].
    - The mutex-protected map of the server is updated atomically: each
      critical section of the source is one map operation here. *)

From Stdlib Require Import ZArith QArith String Ascii List Lia.
From stdpp Require Import base gmap strings pretty list.
Import ListNotations.

Local Open Scope string_scope.
Local Open Scope list_scope.
Local Open Scope Z_scope.

(** ** Go's [error] values *)

Module GoErrors.

(** [errors.New s] and [fmt.Errorf] without [%w] build a value that only
    carries its text; [fmt.Errorf] with [%w] also keeps the wrapped
    error, which [errors.Unwrap] returns. *)
Inductive error : Type :=
| errorString (s : string)
| wrapError (msg : string) (err : error).

Definition Error (e : error) : string :=
  match e with
  | errorString s => s
  | wrapError msg _ => msg
  end.

Definition New (s : string) : error := errorString s.

Definition Unwrap (e : error) : option error :=
  match e with
  | errorString _ => None
  | wrapError _ err => Some err
  end.

(** [fmt.Errorf(prefix + "%w", err)] *)
Definition Errorf_w (prefix : string) (err : error) : error :=
  wrapError (prefix +:+ Error err) err.

(** [fmt.Errorf(prefix + "%s", arg)] *)
Definition Errorf_s (prefix arg : string) : error :=
  errorString (prefix +:+ arg).

End GoErrors.
Export GoErrors.

(** ** Go's [time] package *)

Module GoTime.

Definition Duration := Z.
Definition Time := Z.

Definition minInt64 : Z := - 2 ^ 63.
Definition maxInt64 : Z := 2 ^ 63 - 1.

Definition in_int64 (z : Z) : bool := (minInt64 <=? z) && (z <=? maxInt64).

(** Two's complement wrap-around of an [int64] result. *)
Definition wrap64 (z : Z) : Z := (z + 2 ^ 63) mod 2 ^ 64 - 2 ^ 63.

Definition Nanosecond : Duration := 1.
Definition Microsecond : Duration := 1000 * Nanosecond.
Definition Millisecond : Duration := 1000 * Microsecond.
Definition Second : Duration := 1000 * Millisecond.
Definition Minute : Duration := 60 * Second.
Definition Hour : Duration := 60 * Minute.

(** [t.Add(d)] *)
Definition Add (t : Time) (d : Duration) : Time := t + d.

(** [t.Sub(u)]: the difference, saturated to the range of [Duration]. *)
Definition Sub (t u : Time) : Duration :=
  let d := t - u in
  if d <? minInt64 then minInt64
  else if maxInt64 <? d then maxInt64
  else d.

(** [t.After(u)] *)
Definition After (t u : Time) : bool := u <? t.

(** [t.UnixNano()] *)
Definition UnixNano (t : Time) : Z := t.

(** *** [time.ParseDuration] *)

Definition is_digit (c : ascii) : bool :=
  let n := nat_of_ascii c in (48 <=? n)%nat && (n <=? 57)%nat.

Definition digit_val (c : ascii) : Z := Z.of_nat (nat_of_ascii c) - 48.

Definition dquote : string := String (ascii_of_nat 34) EmptyString.

(** The digit of [lowerhex] for a value below 16. *)
Definition lowerhex (n : nat) : string :=
  String.substring n 1 "0123456789abcdef".

(** The body of [quote]: a byte below the space or above [0x7f] becomes
    [\x] and its two hex digits (the bytes of a rune that is not ASCII
    are all such bytes), a quote or a backslash gets a backslash before
    it, every other byte is copied. *)
Fixpoint quote_bytes (s : string) : string :=
  match s with
  | EmptyString => EmptyString
  | String c s' =>
      let n := nat_of_ascii c in
      if (128 <=? n)%nat || (n <? 32)%nat then
        "\x" +:+ lowerhex (n / 16) +:+ lowerhex (n mod 16) +:+ quote_bytes s'
      else if (n =? 34)%nat || (n =? 92)%nat then
        String (ascii_of_nat 92) (String c (quote_bytes s'))
      else String c (quote_bytes s')
  end.

(** [quote] of package [time] *)
Definition quote (s : string) : string := dquote +:+ quote_bytes s +:+ dquote.

(** [leadingInt] consumes the leading decimal digits of [s]; [None] is
    [errLeadingInt] (the value does not fit). *)
Fixpoint leadingInt_from (x : Z) (s : string) : option (Z * string) :=
  match s with
  | String c s' =>
      if is_digit c then
        if 2 ^ 63 / 10 <? x then None
        else
          let x' := x * 10 + digit_val c in
          if 2 ^ 63 <? x' then None else leadingInt_from x' s'
      else Some (x, s)
  | EmptyString => Some (x, s)
  end.

Definition leadingInt (s : string) : option (Z * string) := leadingInt_from 0 s.

(** [leadingFraction] consumes the leading decimal digits of [s] and returns
    the digits read as an integer [x] and the power of ten [scale] with
    value [x / scale]; digits that would overflow are skipped. *)
Fixpoint leadingFraction_from (x scale : Z) (overflow : bool) (s : string)
  : Z * Z * string :=
  match s with
  | String c s' =>
      if is_digit c then
        if overflow then leadingFraction_from x scale overflow s'
        else if (2 ^ 63 - 1) / 10 <? x then leadingFraction_from x scale true s'
        else
          let y := x * 10 + digit_val c in
          if 2 ^ 63 <? y then leadingFraction_from x scale true s'
          else leadingFraction_from y (scale * 10) overflow s'
      else (x, scale, s)
  | EmptyString => (x, scale, s)
  end.

Definition leadingFraction (s : string) : Z * Z * string :=
  leadingFraction_from 0 1 false s.

(** The longest prefix of [s] without a digit or a period, and the rest. *)
Fixpoint span_unit (s : string) : string * string :=
  match s with
  | String c s' =>
      if Ascii.eqb c "." || is_digit c then (EmptyString, s)
      else let '(u, r) := span_unit s' in (String c u, r)
  | EmptyString => (EmptyString, EmptyString)
  end.

Definition micro_sign : string :=
  String (ascii_of_nat 194) (String (ascii_of_nat 181) EmptyString).
Definition greek_mu : string :=
  String (ascii_of_nat 206) (String (ascii_of_nat 188) EmptyString).

Definition unitMap (u : string) : option Z :=
  if String.eqb u "ns" then Some Nanosecond
  else if String.eqb u "us" then Some Microsecond
  else if String.eqb u (micro_sign +:+ "s") then Some Microsecond
  else if String.eqb u (greek_mu +:+ "s") then Some Microsecond
  else if String.eqb u "ms" then Some Millisecond
  else if String.eqb u "s" then Some Second
  else if String.eqb u "m" then Some Minute
  else if String.eqb u "h" then Some Hour
  else None.

Definition invalid_duration (orig : string) : error :=
  New ("time: invalid duration " +:+ quote orig).

(** The loop [for s != ""] of [ParseDuration]: every round reads one
    group (digits, an optional period and digits, a unit) and adds its
    value to [d], a [uint64] that wraps around. A round
    consumes at least the unit, so [String.length s] rounds are enough;
    [fuel] is that bound. *)
Fixpoint parse_groups (fuel : nat) (orig : string) (d : Z) (s : string)
  : Z + error :=
  match s with
  | EmptyString => inl d
  | String c0 _ =>
      match fuel with
      | O => inr (invalid_duration orig)
      | S fuel' =>
          if negb (Ascii.eqb c0 "." || is_digit c0) then inr (invalid_duration orig)
          else
            match leadingInt s with
            | None => inr (invalid_duration orig)
            | Some (v, s1) =>
                let pre := negb (String.length s =? String.length s1)%nat in
                let '(f, scale, s2, post) :=
                  match s1 with
                  | String "." s1' =>
                      let '(f, scale, s2) := leadingFraction s1' in
                      (f, scale, s2, negb (String.length s1' =? String.length s2)%nat)
                  | _ => (0, 1, s1, false)
                  end in
                if negb pre && negb post then inr (invalid_duration orig)
                else
                  let '(u, s3) := span_unit s2 in
                  if String.eqb u "" then
                    inr (New ("time: missing unit in duration " +:+ quote orig))
                  else
                    match unitMap u with
                    | None =>
                        inr (New ("time: unknown unit " +:+ quote u +:+
                                  " in duration " +:+ quote orig))
                    | Some unit =>
                        if 2 ^ 63 / unit <? v then inr (invalid_duration orig)
                        else
                          let v1 := v * unit in
                          let v2 := if 0 <? f then v1 + (f * unit) / scale else v1 in
                          if (0 <? f) && (2 ^ 63 <? v2) then inr (invalid_duration orig)
                          else
                            let d' := (d + v2) mod 2 ^ 64 in
                            if 2 ^ 63 <? d' then inr (invalid_duration orig)
                            else parse_groups fuel' orig d' s3
                    end
            end
      end
  end.

(** [time.ParseDuration]: an optional sign, then either the single
    character 0 or one or more groups. *)
Definition ParseDuration (orig : string) : Duration + error :=
  let '(neg, s) :=
    match orig with
    | String "-" s' => (true, s')
    | String "+" s' => (false, s')
    | _ => (false, orig)
    end in
  if String.eqb s "0" then inl 0
  else if String.eqb s "" then inr (invalid_duration orig)
  else
    match parse_groups (String.length s) orig 0 s with
    | inr e => inr e
    | inl d =>
        if neg then inl (- d)
        else if 2 ^ 63 - 1 <? d then inr (invalid_duration orig)
        else inl d
    end.

End GoTime.
Export GoTime.

(** ** [models.go]: the model registry *)

Record DeepseekModelInfo := {
  ModelID : string;
  ModelName : string;
  ModelDescription : string
}.

Definition getFallbackDeepseekModels : list DeepseekModelInfo :=
  [ {| ModelID := "deepseek-chat";
       ModelName := "DeepSeek Chat";
       ModelDescription :=
         "General-purpose chat model from DeepSeek, balancing performance and efficiency" |};
    {| ModelID := "deepseek-coder";
       ModelName := "DeepSeek Coder";
       ModelDescription := "Specialized model for coding and technical tasks" |};
    {| ModelID := "deepseek-reasoner";
       ModelName := "DeepSeek Reasoner";
       ModelDescription := "Model optimized for reasoning and problem-solving tasks" |} ].

Definition GetAvailableDeepseekModels : list DeepseekModelInfo :=
  getFallbackDeepseekModels.

(** The first model of the list with the given id, [None] for Go's [nil]. *)
Fixpoint find_model (modelID : string) (models : list DeepseekModelInfo)
  : option DeepseekModelInfo :=
  match models with
  | [] => None
  | model :: rest =>
      if String.eqb (ModelID model) modelID then Some model
      else find_model modelID rest
  end.

Definition GetModelByID (modelID : string) : option DeepseekModelInfo :=
  find_model modelID GetAvailableDeepseekModels.

Definition newline : string := String (ascii_of_nat 10) EmptyString.

(** The text the [strings.Builder] of [ValidateModelID] accumulates. *)
Fixpoint model_lines (models : list DeepseekModelInfo) : string :=
  match models with
  | [] => ""
  | model :: rest =>
      newline +:+ "- " +:+ ModelID model +:+ ": " +:+ ModelName model
      +:+ model_lines rest
  end.

Definition ValidateModelID (modelID : string) : option error :=
  match GetModelByID modelID with
  | Some _ => None
  | None =>
      Some (New ("Invalid model ID: " +:+ modelID +:+ ". Available models are:"
                 +:+ model_lines GetAvailableDeepseekModels))
  end.

(** ** The configuration and the server *)

Record Config := {
  EnableCaching : bool;
  DefaultCacheTTL : Duration;
  MaxRetries : Z;
  InitialBackoff : Duration;
  MaxBackoff : Duration
}.

Record CacheInfo := {
  ID : string;
  SystemPrompt : string;
  Model : string;
  FilePaths : list string;
  CreatedAt : Time;
  ExpiresAt : Time
}.

Record CacheRequest := {
  reqModel : string;
  reqSystemPrompt : string;
  reqFilePaths : list string;
  reqTTL : string
}.

(** [caches] is the map [map[string]*CacheInfo] that [cacheMu] guards. *)
Record DeepseekServer := {
  config : Config;
  caches : gmap string CacheInfo
}.

Definition set_caches (s : DeepseekServer) (m : gmap string CacheInfo)
  : DeepseekServer :=
  {| config := config s; caches := m |}.

(** ** [cache.go] *)

(** [fmt.Sprintf("cache-%d", n)] *)
Definition cache_id (n : Z) : string := "cache-" +:+ pretty n.

(** [createCache]. [now1] is the reading of [time.Now()] the id is built
    from, [now2] the later reading that becomes [CreatedAt]. The result
    is the pair Go returns (an entry or an error) and the server after
    the call. *)
Definition createCache (s : DeepseekServer) (now1 now2 : Time) (req : CacheRequest)
  : (CacheInfo + error) * DeepseekServer :=
  if negb (EnableCaching (config s)) then
    (inr (New "caching is disabled"), s)
  else if String.eqb (reqModel req) "" then
    (inr (New "model is required"), s)
  else
    match ValidateModelID (reqModel req) with
    | Some err => (inr (Errorf_w "invalid model: " err), s)
    | None =>
        let parsed :=
          if String.eqb (reqTTL req) "" then inl (DefaultCacheTTL (config s))
          else
            match ParseDuration (reqTTL req) with
            | inr err => inr (Errorf_w "invalid TTL format: " err)
            | inl ttl => inl ttl
            end in
        match parsed with
        | inr err => (inr err, s)
        | inl ttl =>
            let cacheID := cache_id (UnixNano now1) in
            let createdAt := now2 in
            let expiresAt := Add createdAt ttl in
            let cacheInfo :=
              {| ID := cacheID;
                 SystemPrompt := reqSystemPrompt req;
                 Model := reqModel req;
                 FilePaths := reqFilePaths req;
                 CreatedAt := createdAt;
                 ExpiresAt := expiresAt |} in
            (inl cacheInfo, set_caches s (<[cacheID := cacheInfo]> (caches s)))
        end
    end.

(** [getCache]; [now] is the reading of [time.Now()] in the expiry test. *)
Definition getCache (s : DeepseekServer) (now : Time) (id : string)
  : (CacheInfo + error) * DeepseekServer :=
  match caches s !! id with
  | Some info =>
      if After now (ExpiresAt info) then
        (inr (New "cache has expired"), set_caches s (delete id (caches s)))
      else (inl info, s)
  | None => (inr (Errorf_s "cache not found: " id), s)
  end.

(** The duration [createCache] gives the entry: the configured default
    for an empty [ttl], the parsed value otherwise. *)
Definition resolved_ttl (s : DeepseekServer) (req : CacheRequest) : option Duration :=
  if String.eqb (reqTTL req) "" then Some (DefaultCacheTTL (config s))
  else match ParseDuration (reqTTL req) with
       | inl ttl => Some ttl
       | inr _ => None
       end.

(** ** [retry.go] *)

(** [strings.Contains] *)
Fixpoint Contains (s substr : string) : bool :=
  String.prefix substr s ||
  match s with
  | EmptyString => false
  | String _ s' => Contains s' substr
  end.

Definition IsTimeoutError (err : option error) : bool :=
  match err with
  | None => false
  | Some e =>
      Contains (Error e) "timeout" || Contains (Error e) "deadline"
      || Contains (Error e) "timed out"
  end.

Definition IsNetworkError (err : option error) : bool :=
  match err with
  | None => false
  | Some e =>
      let errorMessage := Error e in
      Contains errorMessage "network" || Contains errorMessage "connection"
      || Contains errorMessage "broken pipe" || Contains errorMessage "reset"
      || Contains errorMessage "EOF" || Contains errorMessage "closed"
  end.

Definition IsRetryableError (err : option error) : bool :=
  IsTimeoutError err || IsNetworkError err.

(** *** Conversions between [int64] and [float64] *)

Definition float64 := Q.

Definition float64_of_int64 (z : Z) : float64 := inject_Z z.

(** Truncation toward zero. *)
Definition Qtrunc (q : Q) : Z := Z.quot (Qnum q) (Zpos (Qden q)).

(** [time.Duration(x)] for a [float64] [x]: the fraction is dropped. Go
    leaves the result open when [x] is outside the [int64] range; amd64
    yields the smallest [int64], which is what is written here. *)
Definition Duration_of_float64 (x : float64) : Duration :=
  let t := Qtrunc x in
  if in_int64 t then t else minInt64.

(** *** What [RetryWithBackoff] is called with, and what it does

    The collaborators of one call: [operation n] is what the [n]-th call
    of the operation returns (counting from [0]), [errorClassifier] the
    classifier, [Float64 n] the [n]-th draw of [r.Float64()], a number in
    the interval from [0] to [1] without [1], and [ctx_done n] tells
    whether the [n]-th [select] receives from [ctx.Done()] ([true]) or
    from the timer ([false]). *)
Record Env := {
  operation : nat -> option error;
  errorClassifier : error -> bool;
  Float64 : nat -> float64;
  ctx_done : nat -> bool
}.

(** The observable steps of a call, in program order. [Select] records
    the three durations of the round ([backoff], [randomJitter] and
    [nextBackoff], the time the timer is set to) and which case of the
    [select] ran: [true] for [ctx.Done()]. *)
Inductive Event : Type :=
| LogInfo (attempt maxRetries : Z) (backoff : Duration)
| Call (result : option error)
| Classify (err : error) (retryable : bool)
| LogError (attempts : Z) (err : error)
| Select (backoff randomJitter nextBackoff : Duration) (done : bool).

Definition cancelled_error : error := New "operation cancelled during backoff".

(** The line [logger.Info("Retrying operation ...")] at the head of every
    round but the first, put before the events [tr] of the round. *)
Definition logged (attempt maxRetries : Z) (backoff : Duration) (tr : list Event)
  : list Event :=
  if 0 <? attempt then LogInfo attempt maxRetries backoff :: tr else tr.

(** [randomJitter]: the draw [u] of [r.Float64()] times a tenth of the
    current [backoff], as a duration. *)
Definition randomJitter (u : float64) (backoff : Duration) : Duration :=
  let jitter := ((1 # 10) * float64_of_int64 backoff)%Q in
  Duration_of_float64 (u * jitter)%Q.

(** [nextBackoff]: the sum of [backoff] and the jitter [j], cut down to
    [maxBackoff]. *)
Definition nextBackoff (backoff j maxBackoff : Duration) : Duration :=
  let next := wrap64 (backoff + j) in
  if maxBackoff <? next then maxBackoff else next.

(** [backoff = time.Duration(float64(backoff) * 2.0)] *)
Definition increase (backoff : Duration) : Duration :=
  Duration_of_float64 (float64_of_int64 backoff * 2)%Q.

(** The [for] loop of [RetryWithBackoff] from the test of its condition.
    [n] counts the rounds already run, [attempt], [backoff] and [err] are
    the variables of the source. The loop runs at most [maxRetries + 1]
    rounds; [fuel] bounds them and [None] means that it was too small. *)
Fixpoint attempt_loop (fuel : nat) (E : Env) (maxRetries : Z) (maxBackoff : Duration)
    (n : nat) (attempt : Z) (backoff : Duration) (err : option error)
  : option (option error * list Event) :=
  if attempt <=? maxRetries then
    match fuel with
    | O => None
    | S fuel' =>
        match operation E n with
        | None => Some (None, logged attempt maxRetries backoff [Call None])
        | Some e =>
            if negb (errorClassifier E e) then
              Some (Some e,
                    logged attempt maxRetries backoff
                      [Call (Some e); Classify e false])
            else if attempt =? maxRetries then
              Some (Some e,
                    logged attempt maxRetries backoff
                      [Call (Some e); Classify e true;
                       LogError (wrap64 (maxRetries + 1)) e])
            else
              let j := randomJitter (Float64 E n) backoff in
              let next := nextBackoff backoff j maxBackoff in
              if ctx_done E n then
                Some (Some cancelled_error,
                      logged attempt maxRetries backoff
                        [Call (Some e); Classify e true; Select backoff j next true])
              else
                match attempt_loop fuel' E maxRetries maxBackoff
                        (S n) (attempt + 1) (increase backoff) (Some e) with
                | None => None
                | Some (r, tr) =>
                    Some (r,
                          logged attempt maxRetries backoff
                            (Call (Some e) :: Classify e true ::
                             Select backoff j next false :: tr))
                end
        end
    end
  else Some (err, []).

Definition RetryWithBackoff (E : Env) (maxRetries : Z)
    (initialBackoff maxBackoff : Duration)
  : option (option error * list Event) :=
  attempt_loop (Z.to_nat (maxRetries + 1)) E maxRetries maxBackoff
    0%nat 0 initialBackoff None.

(** *** Reading a trace *)

(** How often the operation was called. *)
Fixpoint attempts (tr : list Event) : nat :=
  match tr with
  | [] => 0%nat
  | Call _ :: tr' => S (attempts tr')
  | _ :: tr' => attempts tr'
  end.

(** How often the classifier was called. *)
Fixpoint classifications (tr : list Event) : nat :=
  match tr with
  | [] => 0%nat
  | Classify _ _ :: tr' => S (classifications tr')
  | _ :: tr' => classifications tr'
  end.

(** The rounds that reached the [select]: base delay, jitter, wait and
    whether the wait was cut short by the context. *)
Fixpoint selects (tr : list Event) : list (Duration * Duration * Duration * bool) :=
  match tr with
  | [] => []
  | Select b j w c :: tr' => (b, j, w, c) :: selects tr'
  | _ :: tr' => selects tr'
  end.

(** The base delays, before jitter, of the rounds that reached the wait. *)
Definition base_delays (tr : list Event) : list Duration :=
  map (fun x => x.1.1.1) (selects tr).

(** The delays the timer ran to its end. *)
Fixpoint completed_waits (tr : list Event) : list Duration :=
  match tr with
  | [] => []
  | Select _ _ w false :: tr' => w :: completed_waits tr'
  | _ :: tr' => completed_waits tr'
  end.

(** The events after the first cancelled [select]. *)
Fixpoint after_cancel (tr : list Event) : option (list Event) :=
  match tr with
  | [] => None
  | Select _ _ _ true :: tr' => Some tr'
  | _ :: tr' => after_cancel tr'
  end.

(** A caller: the operation fails every time with the same error. *)
Definition always_failing (e : error) (classifier : error -> bool)
    (draw : float64) (done : nat -> bool) : Env :=
  {| operation := fun _ => Some e;
     errorClassifier := classifier;
     Float64 := fun _ => draw;
     ctx_done := done |}.

(** The five ways one round of the loop can go. *)
Inductive round_outcome (E : Env) (maxRetries : Z) (maxBackoff : Duration)
    (n : nat) (attempt : Z) (backoff : Duration)
  : option (option error * list Event) -> option error -> list Event -> Prop :=
| round_success :
    operation E n = None ->
    round_outcome E maxRetries maxBackoff n attempt backoff
      None None [Call None]
| round_rejected e :
    operation E n = Some e -> errorClassifier E e = false ->
    round_outcome E maxRetries maxBackoff n attempt backoff
      None (Some e) [Call (Some e); Classify e false]
| round_exhausted e :
    operation E n = Some e -> errorClassifier E e = true ->
    attempt = maxRetries ->
    round_outcome E maxRetries maxBackoff n attempt backoff
      None (Some e)
      [Call (Some e); Classify e true; LogError (wrap64 (maxRetries + 1)) e]
| round_cancelled e :
    operation E n = Some e -> errorClassifier E e = true ->
    attempt < maxRetries -> ctx_done E n = true ->
    round_outcome E maxRetries maxBackoff n attempt backoff
      None (Some cancelled_error)
      [Call (Some e); Classify e true;
       Select backoff (randomJitter (Float64 E n) backoff)
         (nextBackoff backoff (randomJitter (Float64 E n) backoff) maxBackoff) true]
| round_retry e r tr :
    operation E n = Some e -> errorClassifier E e = true ->
    attempt < maxRetries -> ctx_done E n = false ->
    round_outcome E maxRetries maxBackoff n attempt backoff
      (Some (r, tr)) r
      (Call (Some e) :: Classify e true ::
       Select backoff (randomJitter (Float64 E n) backoff)
         (nextBackoff backoff (randomJitter (Float64 E n) backoff) maxBackoff) false
       :: tr).

(** The base delays of [k] rounds that start from [b]. *)
Fixpoint schedule (k : nat) (b : Duration) : list Duration :=
  match k with
  | O => []
  | S k' => b :: schedule k' (increase b)
  end.

(** [tr] ends with the events [suffix]. *)
Definition ends_with (tr suffix : list Event) : Prop :=
  exists pre, tr = pre ++ suffix.

(** The run gave up after its last attempt: it ends with the line
    [logger.Error("Operation failed after ...")]. *)
Definition exhausted (tr : list Event) : bool :=
  match List.last tr (Call None) with
  | LogError _ _ => true
  | _ => false
  end.

(** The run ended because the classifier said no. *)
Definition rejected (tr : list Event) : bool :=
  match List.last tr (Call None) with
  | Classify _ false => true
  | _ => false
  end.

(** ** Callers and servers used as concrete inputs *)

(** A caller whose operation always fails with a network error and
    whose jitter draws are all one half. *)
Definition half_jitter_caller : Env :=
  always_failing (New "connection reset by peer")
    (fun e => IsRetryableError (Some e)) (1 # 2) (fun _ => false).

(** A caller that cancels the context during the second wait. *)
Definition cancelled_in_second_wait : Env :=
  always_failing (New "connection reset by peer")
    (fun e => IsRetryableError (Some e)) (1 # 2) (fun n => (n =? 1)%nat).

(** The run of [cancelled_in_second_wait] with four retries, 1s and 10s. *)
Definition cancelled_in_second_wait_trace : list Event :=
  [Call (Some (New "connection reset by peer"));
   Classify (New "connection reset by peer") true;
   Select 1000000000 50000000 1050000000 false;
   LogInfo 1 4 2000000000;
   Call (Some (New "connection reset by peer"));
   Classify (New "connection reset by peer") true;
   Select 2000000000 100000000 2100000000 true].

(** A server with caching switched on and an empty table, 1h default. *)
Definition fresh_server : DeepseekServer :=
  {| config := {| EnableCaching := true;
                  DefaultCacheTTL := 1 * Hour;
                  MaxRetries := 2;
                  InitialBackoff := 1 * Second;
                  MaxBackoff := 10 * Second |};
     caches := ∅ |}.

(** The same server with caching switched off. *)
Definition disabled_server : DeepseekServer :=
  {| config := {| EnableCaching := false;
                  DefaultCacheTTL := 1 * Hour;
                  MaxRetries := 2;
                  InitialBackoff := 1 * Second;
                  MaxBackoff := 10 * Second |};
     caches := ∅ |}.

Definition chat_request (ttl : string) : CacheRequest :=
  {| reqModel := "deepseek-chat";
     reqSystemPrompt := "You are a reviewer.";
     reqFilePaths := ["main.go"; "cache.go"];
     reqTTL := ttl |}.

Definition coder_request (ttl : string) : CacheRequest :=
  {| reqModel := "deepseek-coder";
     reqSystemPrompt := "";
     reqFilePaths := [];
     reqTTL := ttl |}.

(** The entry [createCache] makes at readings [now1] and [now2] for the
    request [req] with the duration [ttl]. *)
Definition entry_of (now1 now2 : Time) (req : CacheRequest) (ttl : Duration)
  : CacheInfo :=
  {| ID := cache_id (UnixNano now1);
     SystemPrompt := reqSystemPrompt req;
     Model := reqModel req;
     FilePaths := reqFilePaths req;
     CreatedAt := now2;
     ExpiresAt := Add now2 ttl |}.

(** The server after [createCache] stored [info]. *)
Definition with_entry (s : DeepseekServer) (info : CacheInfo) : DeepseekServer :=
  set_caches s (<[ID info := info]> (caches s)).

(** [getCache] of the same id at each of the readings [nows] in turn. *)
Fixpoint getCache_each (s : DeepseekServer) (nows : list Time) (id : string)
  : list (CacheInfo + error) * DeepseekServer :=
  match nows with
  | [] => ([], s)
  | now :: rest =>
      let '(r, s1) := getCache s now id in
      let '(rs, s2) := getCache_each s1 rest id in
      (r :: rs, s2)
  end.

(** ** More ways to read a trace *)

(** What the calls of the operation returned, in order. *)
Fixpoint calls (tr : list Event) : list (option error) :=
  match tr with
  | [] => []
  | Call r :: tr' => r :: calls tr'
  | _ :: tr' => calls tr'
  end.

(** The durations the timers of the waits were set to. *)
Definition waits (tr : list Event) : list Duration :=
  map (fun x => x.1.2) (selects tr).

(** Which waits the context cut short. *)
Definition cancellations (tr : list Event) : list bool :=
  map (fun x => x.2) (selects tr).

(** The same collaborators with other jitter draws. *)
Definition with_draws (E : Env) (draws : nat -> float64) : Env :=
  {| operation := operation E;
     errorClassifier := errorClassifier E;
     Float64 := draws;
     ctx_done := ctx_done E |}.

(** A caller whose operation fails twice with a network error and then
    succeeds. *)
Definition third_time_lucky : Env :=
  {| operation := fun n =>
       if (n <? 2)%nat then Some (New "connection reset by peer") else None;
     errorClassifier := fun e => IsRetryableError (Some e);
     Float64 := fun _ => 1 # 2;
     ctx_done := fun _ => false |}.

(** ** [executeDeepseekRequest], the caller of [RetryWithBackoff] *)

(** A response of the chat-completion API, as far as the handlers read
    it: the message contents of its choices. *)
Record ChatCompletionResponse := {
  Choices : list string
}.

(** The collaborators of one [executeDeepseekRequest]: what the [n]-th
    call of [s.client.CreateChatCompletion] returns (a response pointer
    and an error, either of which may be [nil]), the jitter draws and the
    cancellation of the context. *)
Record ApiEnv := {
  CreateChatCompletion : nat -> option ChatCompletionResponse * option error;
  apiFloat64 : nat -> float64;
  api_ctx_done : nat -> bool
}.

(** The closure [operation] of [executeDeepseekRequest] returns the error
    of the API call; the classifier is [IsRetryableError]. *)
Definition api_operation (A : ApiEnv) : Env :=
  {| operation := fun n => (CreateChatCompletion A n).2;
     errorClassifier := fun e => IsRetryableError (Some e);
     Float64 := apiFloat64 A;
     ctx_done := api_ctx_done A |}.

(** [executeDeepseekRequest]. The variable [response] is assigned by
    every call of the closure, so after the run it holds the response of
    the last call made, or [nil] when no call was made. The result is the
    pair Go returns, with the trace of the retry run. *)
Definition executeDeepseekRequest (s : DeepseekServer) (A : ApiEnv)
  : option ((option ChatCompletionResponse * option error) * list Event) :=
  match RetryWithBackoff (api_operation A) (MaxRetries (config s))
          (InitialBackoff (config s)) (MaxBackoff (config s)) with
  | None => None
  | Some (Some err, tr) => Some ((None, Some err), tr)
  | Some (None, tr) =>
      let response :=
        match attempts tr with
        | O => None
        | S k => (CreateChatCompletion A k).1
        end in
      Some ((response, None), tr)
  end.

(** An API that times out once and then answers. *)
Definition flaky_api : ApiEnv :=
  {| CreateChatCompletion := fun n =>
       if (n <? 1)%nat then (None, Some (New "context deadline exceeded"))
       else (Some {| Choices := ["Looks good to me."] |}, None);
     apiFloat64 := fun _ => 1 # 2;
     api_ctx_done := fun _ => false |}.

(** A server configured with a negative number of retries. *)
Definition negative_retries_server : DeepseekServer :=
  {| config := {| EnableCaching := true;
                  DefaultCacheTTL := 1 * Hour;
                  MaxRetries := -1;
                  InitialBackoff := 1 * Second;
                  MaxBackoff := 10 * Second |};
     caches := ∅ |}.

(** ** Sequences of cache operations *)

(** A call to the cache store with the clock readings it takes. *)
Inductive CacheOp : Type :=
| OpCreate (now1 now2 : Time) (req : CacheRequest)
| OpGet (now : Time) (id : string).

Definition apply_op (s : DeepseekServer) (op : CacheOp)
  : (CacheInfo + error) * DeepseekServer :=
  match op with
  | OpCreate now1 now2 req => createCache s now1 now2 req
  | OpGet now id => getCache s now id
  end.

(** The calls [ops] one after the other: their results and the server
    they leave. *)
Fixpoint run_ops (s : DeepseekServer) (ops : list CacheOp)
  : list (CacheInfo + error) * DeepseekServer :=
  match ops with
  | [] => ([], s)
  | op :: rest =>
      let '(r, s1) := apply_op s op in
      let '(rs, s2) := run_ops s1 rest in
      (r :: rs, s2)
  end.

(** Whether the call can touch the table entry of [id]: a [getCache] of
    [id], or a [createCache] whose clock reading makes the id [id]. *)
Definition touches (id : string) (op : CacheOp) : bool :=
  match op with
  | OpCreate now1 _ _ => String.eqb (cache_id (UnixNano now1)) id
  | OpGet _ id' => String.eqb id' id
  end.

(** Every entry of the table sits under its own id and names a model
    that [ValidateModelID] accepts. *)
Definition table_ok (s : DeepseekServer) : Prop :=
  forall id info,
    caches s !! id = Some info ->
    ID info = id /\ ValidateModelID (Model info) = None.

(** The retries a run announces: for every completed wait that is
    directly followed by the line [logger.Info("Retrying operation ...")],
    the base delay and the length of that wait, and the attempt number,
    the maximum and the delay the line prints. *)
Fixpoint retry_logs (tr : list Event)
  : list (Duration * Duration * Z * Z * Duration) :=
  match tr with
  | [] => []
  | Select b _ w false :: ((LogInfo a m b' :: _) as tr') =>
      (b, w, a, m, b') :: retry_logs tr'
  | _ :: tr' => retry_logs tr'
  end.

(** ** [models.go]: the registry of a server that discovered models *)

(** [s.GetAvailableDeepseekModels()], as a function of the field
    [s.models]: the discovered models, or the fallback list when none
    was discovered. *)
Definition Server_GetAvailableDeepseekModels (models : list DeepseekModelInfo)
  : list DeepseekModelInfo :=
  if (0 <? length models)%nat then models else getFallbackDeepseekModels.

(** [s.GetModelByID(modelID)] *)
Definition Server_GetModelByID (models : list DeepseekModelInfo) (modelID : string)
  : option DeepseekModelInfo :=
  find_model modelID (Server_GetAvailableDeepseekModels models).

(** [s.ValidateModelID(modelID)] *)
Definition Server_ValidateModelID (models : list DeepseekModelInfo) (modelID : string)
  : option error :=
  match Server_GetModelByID models modelID with
  | Some _ => None
  | None =>
      Some (New ("Invalid model ID: " +:+ modelID +:+ ". Available models are:"
                 +:+ model_lines (Server_GetAvailableDeepseekModels models)))
  end.

(** ** Sizes *)

(** [sumSizes]: the loop adds every size to an [int64] total. *)
Fixpoint sumSizes_from (total : Z) (sizes : list Z) : Z :=
  match sizes with
  | [] => total
  | size :: rest => sumSizes_from (wrap64 (total + size)) rest
  end.

Definition sumSizes (sizes : list Z) : Z := sumSizes_from 0 sizes.

(** The constant [unit] of [humanReadableSize]. *)
Definition size_unit : Z := 1024.

(** The loop of [humanReadableSize],
    [for n := bytes / unit; n >= unit; n /= unit], from the test of its
    condition: [n], [div] and [exp] are the variables of the source. A
    round divides [n] by 1024, so [Z.log2 n] rounds are more than
    enough; [fuel] is that bound. *)
Fixpoint size_scale (fuel : nat) (n div : Z) (exp : nat) : Z * nat :=
  if size_unit <=? n then
    match fuel with
    | O => (div, exp)
    | S fuel' =>
        size_scale fuel' (Z.quot n size_unit) (wrap64 (div * size_unit)) (S exp)
    end
  else (div, exp).

(** The values of [div] and [exp] after the loop. *)
Definition humanReadableSize_scale (bytes : Z) : Z * nat :=
  let n := Z.quot bytes size_unit in
  size_scale (Z.to_nat (Z.log2 n)) n size_unit 0.

(** The nearest integer to [a / b] for [b > 0], ties to the even one:
    the rounding of the verb [%.1f] on the tenths. *)
Definition round_half_even (a b : Z) : Z :=
  let q := a / b in
  let r := a mod b in
  if 2 * r <? b then q
  else if b <? 2 * r then q + 1
  else if Z.even q then q else q + 1.

(** [humanReadableSize]. [float64(bytes) / float64(div)] is the exact
    quotient for sizes below [2^53]; [%.1f] prints it rounded to one
    decimal. *)
Definition humanReadableSize (bytes : Z) : string :=
  if bytes <? size_unit then pretty bytes +:+ " B"
  else
    let '(div, exp) := humanReadableSize_scale bytes in
    let tenths := round_half_even (10 * bytes) div in
    pretty (tenths / 10) +:+ "." +:+ pretty (tenths mod 10) +:+ " "
    +:+ String.substring exp 1 "KMGTPE" +:+ "B".

(** ** [files.go] and the MIME types *)

(** [filepath.Ext] with the separator [/]: scanning back from the end,
    the suffix that starts at the first period met, or the empty string
    when a separator or the start of the path comes first. [Ext_scan s]
    is [Some] of the answer when the scan of the suffix [s] settles it,
    [None] when the scan has to go on to the left of [s]. *)
Fixpoint Ext_scan (s : string) : option string :=
  match s with
  | EmptyString => None
  | String c s' =>
      match Ext_scan s' with
      | Some e => Some e
      | None =>
          if Ascii.eqb c "." then Some (String c s')
          else if Ascii.eqb c "/" then Some EmptyString
          else None
      end
  end.

Definition Ext (path : string) : string :=
  match Ext_scan path with
  | Some e => e
  | None => EmptyString
  end.

Definition is_ascii_string (s : string) : bool :=
  forallb (fun c => (nat_of_ascii c <? 128)%nat) (list_ascii_of_string s).

Definition ascii_lower (c : ascii) : ascii :=
  let n := nat_of_ascii c in
  if (65 <=? n)%nat && (n <=? 90)%nat then ascii_of_nat (n + 32) else c.

Fixpoint map_string (f : ascii -> ascii) (s : string) : string :=
  match s with
  | EmptyString => EmptyString
  | String c s' => String (f c) (map_string f s')
  end.

(** What [os.Stat] tells about a file, as far as it is read. *)
Record FileInfo := {
  IsDir : bool;
  Size : Z
}.

(** The default of [AllowedFileTypes] in [NewConfig]. *)
Definition defaultAllowedFileTypes : list string :=
  ["text/plain"; "text/x-go"; "text/x-python"; "text/javascript";
   "text/markdown"; "text/x-java"; "text/x-c"; "text/x-c++";
   "text/csv"; "application/json"; "text/x-yaml"; "text/x-toml";
   "text/html"; "text/css"; "application/xml"].

Section Files.

(** [strings.ToLower] on a string with a byte above [0x7f] goes through
    the Unicode tables: [unicode_ToLower] stands for that branch. [Stat]
    is [os.Stat] on the file system at hand. *)
Variable unicode_ToLower : string -> string.
Variable Stat : string -> FileInfo + error.

(** [strings.ToLower] *)
Definition ToLower (s : string) : string :=
  if is_ascii_string s then map_string ascii_lower s else unicode_ToLower s.

Definition getMimeTypeFromPath (path : string) : string :=
  let ext := ToLower (Ext path) in
  if String.eqb ext ".txt" then "text/plain"
  else if String.eqb ext ".html" || String.eqb ext ".htm" then "text/html"
  else if String.eqb ext ".css" then "text/css"
  else if String.eqb ext ".js" then "application/javascript"
  else if String.eqb ext ".json" then "application/json"
  else if String.eqb ext ".xml" then "application/xml"
  else if String.eqb ext ".pdf" then "application/pdf"
  else if String.eqb ext ".png" then "image/png"
  else if String.eqb ext ".jpg" || String.eqb ext ".jpeg" then "image/jpeg"
  else if String.eqb ext ".gif" then "image/gif"
  else if String.eqb ext ".svg" then "image/svg+xml"
  else if String.eqb ext ".mp3" then "audio/mpeg"
  else if String.eqb ext ".mp4" then "video/mp4"
  else if String.eqb ext ".wav" then "audio/wav"
  else if String.eqb ext ".doc" || String.eqb ext ".docx" then "application/msword"
  else if String.eqb ext ".xls" || String.eqb ext ".xlsx"
       then "application/vnd.ms-excel"
  else if String.eqb ext ".ppt" || String.eqb ext ".pptx"
       then "application/vnd.ms-powerpoint"
  else if String.eqb ext ".zip" then "application/zip"
  else if String.eqb ext ".csv" then "text/csv"
  else if String.eqb ext ".go" then "text/x-go"
  else if String.eqb ext ".py" then "text/x-python"
  else if String.eqb ext ".java" then "text/x-java"
  else if String.eqb ext ".c" || String.eqb ext ".cpp" || String.eqb ext ".h"
          || String.eqb ext ".hpp" then "text/x-c"
  else if String.eqb ext ".rb" then "text/plain"
  else if String.eqb ext ".php" then "text/plain"
  else if String.eqb ext ".md" then "text/markdown"
  else "application/octet-stream".

(** The loop of [ValidateFilePath] over [allowedTypes]. *)
Fixpoint type_allowed (mimeType : string) (allowedTypes : list string) : bool :=
  match allowedTypes with
  | [] => false
  | allowedType :: rest =>
      if String.eqb mimeType allowedType then true else type_allowed mimeType rest
  end.

Definition ValidateFilePath (path : string) (allowedTypes : list string)
  : option error :=
  match Stat path with
  | inr err => Some (Errorf_w "file not found or not accessible: " err)
  | inl info =>
      if IsDir info then
        Some (Errorf_s "path is a directory, not a file: " path)
      else if 10 * 1024 * 1024 <? Size info then
        Some (New ("file is too large: " +:+ path +:+ " ("
                   +:+ humanReadableSize (Size info) +:+ ")"))
      else if (0 <? length allowedTypes)%nat then
        let mimeType := getMimeTypeFromPath path in
        if negb (type_allowed mimeType allowedTypes) then
          Some (New ("file type not allowed: " +:+ path +:+ " (type: "
                     +:+ mimeType +:+ ")"))
        else None
      else None
  end.

(** [GetFileInfo]: the MIME type and the size, or the error of
    [os.Stat]. *)
Definition GetFileInfo (path : string) : (string * Z) + error :=
  match Stat path with
  | inr err => inr err
  | inl info => inl (getMimeTypeFromPath path, Size info)
  end.

End Files.

(** A file system with one Go file, one script, one directory and one
    file of 20 MiB. *)
Definition small_fs (path : string) : FileInfo + error :=
  if String.eqb path "src/Main.GO" then inl {| IsDir := false; Size := 2048 |}
  else if String.eqb path "web/app.js" then inl {| IsDir := false; Size := 512 |}
  else if String.eqb path "src" then inl {| IsDir := true; Size := 4096 |}
  else if String.eqb path "dump.txt"
       then inl {| IsDir := false; Size := 20 * 1024 * 1024 |}
  else inr (New ("stat " +:+ path +:+ ": no such file or directory")).

(** * The embedding at work *)

Example ParseDuration_1h : ParseDuration "1h" = inl (3600 * Second).
Proof. vm_compute. reflexivity. Qed.

Example ParseDuration_mix : ParseDuration "1h15m30.5s" = inl (4530500 * Millisecond).
Proof. vm_compute. reflexivity. Qed.

Example ParseDuration_neg : ParseDuration "-1.5h" = inl (- (90 * Minute)).
Proof. vm_compute. reflexivity. Qed.

Example ParseDuration_zero : ParseDuration "0" = inl 0.
Proof. vm_compute. reflexivity. Qed.

Example ParseDuration_bare : ParseDuration "10" =
  inr (New ("time: missing unit in duration " +:+ quote "10")).
Proof. vm_compute. reflexivity. Qed.

Example ParseDuration_wraps :
  ParseDuration "9223372036854775808ns9223372036854775808ns" = inl 0.
Proof. vm_compute. reflexivity. Qed.

Example quote_escapes :
  quote (String (ascii_of_nat 9) (String (ascii_of_nat 195)
           (String (ascii_of_nat 169) (String (ascii_of_nat 92) "h"))))
  = dquote +:+ "\x09\xc3\xa9\\h" +:+ dquote.
Proof. vm_compute. reflexivity. Qed.

Example ParseDuration_word : ParseDuration "soon" = inr (invalid_duration "soon").
Proof. vm_compute. reflexivity. Qed.

Example retry_run_5 :
  RetryWithBackoff half_jitter_caller 1 (1 * Second) (10 * Second)
  = Some (Some (New "connection reset by peer"),
          [Call (Some (New "connection reset by peer"));
           Classify (New "connection reset by peer") true;
           Select 1000000000 50000000 1050000000 false;
           LogInfo 1 1 2000000000;
           Call (Some (New "connection reset by peer"));
           Classify (New "connection reset by peer") true;
           LogError 2 (New "connection reset by peer")]).
Proof. vm_compute. reflexivity. Qed.

(** * Properties of the retry executor *)

Section TraceReading.

Variables (attempt maxRetries : Z) (backoff : Duration) (tr : list Event).

Lemma attempts_logged : attempts (logged attempt maxRetries backoff tr) = attempts tr.
Proof. unfold logged. destruct (0 <? attempt); reflexivity. Qed.

Lemma classifications_logged :
  classifications (logged attempt maxRetries backoff tr) = classifications tr.
Proof. unfold logged. destruct (0 <? attempt); reflexivity. Qed.

Lemma selects_logged : selects (logged attempt maxRetries backoff tr) = selects tr.
Proof. unfold logged. destruct (0 <? attempt); reflexivity. Qed.

Lemma completed_waits_logged :
  completed_waits (logged attempt maxRetries backoff tr) = completed_waits tr.
Proof. unfold logged. destruct (0 <? attempt); reflexivity. Qed.

Lemma after_cancel_logged :
  after_cancel (logged attempt maxRetries backoff tr) = after_cancel tr.
Proof. unfold logged. destruct (0 <? attempt); reflexivity. Qed.

Lemma last_logged (e : Event) :
  tr <> [] -> List.last (logged attempt maxRetries backoff tr) e = List.last tr e.
Proof.
  unfold logged. destruct (0 <? attempt); [|reflexivity].
  destruct tr; [congruence | reflexivity].
Qed.

End TraceReading.

(** The equation of [attempt_loop] for one round. *)
Lemma attempt_loop_unfold fuel E maxRetries maxBackoff n attempt backoff err :
  attempt_loop (S fuel) E maxRetries maxBackoff n attempt backoff err =
  if attempt <=? maxRetries then
    match operation E n with
    | None => Some (None, logged attempt maxRetries backoff [Call None])
    | Some e =>
        if negb (errorClassifier E e) then
          Some (Some e,
                logged attempt maxRetries backoff [Call (Some e); Classify e false])
        else if attempt =? maxRetries then
          Some (Some e,
                logged attempt maxRetries backoff
                  [Call (Some e); Classify e true;
                   LogError (wrap64 (maxRetries + 1)) e])
        else
          let j := randomJitter (Float64 E n) backoff in
          let next := nextBackoff backoff j maxBackoff in
          if ctx_done E n then
            Some (Some cancelled_error,
                  logged attempt maxRetries backoff
                    [Call (Some e); Classify e true; Select backoff j next true])
          else
            match attempt_loop fuel E maxRetries maxBackoff
                    (S n) (attempt + 1) (increase backoff) (Some e) with
            | None => None
            | Some (r, tr) =>
                Some (r,
                      logged attempt maxRetries backoff
                        (Call (Some e) :: Classify e true ::
                         Select backoff j next false :: tr))
            end
    end
  else Some (err, []).
Proof. reflexivity. Qed.

(** One round of [attempt_loop], read backwards from its result: either
    the condition of the loop failed, or a round ran; in the last case of
    [round_outcome] the rest of the loop produced [rest]. *)
Lemma attempt_loop_inv fuel E maxRetries maxBackoff n attempt backoff err r tr :
  attempt_loop fuel E maxRetries maxBackoff n attempt backoff err = Some (r, tr) ->
  (maxRetries < attempt /\ r = err /\ tr = []) \/
  (attempt <= maxRetries /\
   exists fuel' rest tr0,
     fuel = S fuel' /\
     tr = logged attempt maxRetries backoff tr0 /\
     round_outcome E maxRetries maxBackoff n attempt backoff rest r tr0 /\
     (forall x, rest = Some x ->
        attempt_loop fuel' E maxRetries maxBackoff (S n) (attempt + 1)
          (increase backoff) (operation E n) = Some x)).
Proof.
  destruct fuel as [|fuel']; cbn [attempt_loop];
    destruct (Z.leb_spec attempt maxRetries) as [Hle|Hgt]; intros H;
    try discriminate; try (left; inversion H; subst; repeat split; lia).
  right. split; [assumption|].
  destruct (operation E n) as [e|] eqn:Hop.
  - destruct (errorClassifier E e) eqn:Hcl; cbn [negb] in H.
    + destruct (Z.eqb_spec attempt maxRetries) as [Heq|Hne].
      * inversion H; subst.
        exists fuel', None; eexists; split; [reflexivity|]; split; [reflexivity|].
        split; [by apply round_exhausted | discriminate].
      * destruct (ctx_done E n) eqn:Hctx.
        -- inversion H; subst.
           exists fuel', None; eexists; split; [reflexivity|]; split; [reflexivity|].
           split; [apply (round_cancelled _ _ _ _ _ _ e); auto; lia | discriminate].
        -- destruct (attempt_loop fuel' E maxRetries maxBackoff (S n)
                       (attempt + 1) (increase backoff) (Some e))
             as [[r' tr']|] eqn:Hrec; [|discriminate].
           inversion H; subst.
           exists fuel', (Some (r, tr')); eexists.
           split; [reflexivity|]; split; [reflexivity|].
           split; [apply round_retry; auto; lia|].
           intros x Hx; inversion Hx; subst; assumption.
    + inversion H; subst.
      exists fuel', None; eexists; split; [reflexivity|]; split; [reflexivity|].
      split; [by apply round_rejected | discriminate].
  - inversion H; subst.
    exists fuel', None; eexists; split; [reflexivity|]; split; [reflexivity|].
    split; [by apply round_success | discriminate].
Qed.

(** The loop ends: with a round of fuel for every value [attempt] still
    has to take, it returns. *)
Lemma attempt_loop_total E maxRetries maxBackoff :
  forall fuel n attempt backoff err,
    (Z.to_nat (maxRetries - attempt + 1) <= fuel)%nat ->
    exists r tr,
      attempt_loop fuel E maxRetries maxBackoff n attempt backoff err = Some (r, tr).
Proof.
  induction fuel as [|fuel IH]; intros n attempt backoff err Hfuel;
    cbn [attempt_loop]; destruct (Z.leb_spec attempt maxRetries) as [Hle|Hgt];
    try (eexists; eexists; reflexivity); [lia|].
  destruct (operation E n) as [e|]; [|eexists; eexists; reflexivity].
  destruct (negb (errorClassifier E e)); [eexists; eexists; reflexivity|].
  destruct (Z.eqb_spec attempt maxRetries); [eexists; eexists; reflexivity|].
  destruct (ctx_done E n); [eexists; eexists; reflexivity|].
  destruct (IH (S n) (attempt + 1) (increase backoff) (Some e)) as (r & tr & Hrec);
    [lia|].
  rewrite Hrec. eexists; eexists; reflexivity.
Qed.

Lemma RetryWithBackoff_total E maxRetries initialBackoff maxBackoff :
  exists r tr,
    RetryWithBackoff E maxRetries initialBackoff maxBackoff = Some (r, tr).
Proof. apply attempt_loop_total. lia. Qed.

(** C9. For every negative [maxRetries], [RetryWithBackoff] returns [nil]
    and does nothing at all: the condition of the loop fails at once, so
    the operation, the classifier, the logger and the wait are never
    reached and the initial [nil] of [err] is returned. *)
Theorem negative_maxRetries_returns_nil
    (E : Env) (maxRetries : Z) (initialBackoff maxBackoff : Duration) :
  maxRetries < 0 ->
  RetryWithBackoff E maxRetries initialBackoff maxBackoff = Some (None, []) /\
  forall r tr,
    RetryWithBackoff E maxRetries initialBackoff maxBackoff = Some (r, tr) ->
    r = None /\ attempts tr = 0%nat /\ classifications tr = 0%nat /\ selects tr = [].
Proof.
  intros Hneg.
  assert (Hrun : RetryWithBackoff E maxRetries initialBackoff maxBackoff
                 = Some (None, [])).
  { unfold RetryWithBackoff.
    destruct (Z.to_nat (maxRetries + 1)); cbn [attempt_loop];
      destruct (Z.leb_spec 0 maxRetries); try lia; reflexivity. }
  split; [exact Hrun|].
  intros r tr H. rewrite Hrun in H. inversion H; subst. repeat split.
Qed.

Lemma negative_maxRetries_returns_nil_witness :
  RetryWithBackoff half_jitter_caller (-1) (1 * Second) (10 * Second)
  = Some (None, []).
Proof.
  apply (negative_maxRetries_returns_nil half_jitter_caller
           (-1) (1 * Second) (10 * Second)).
  lia.
Defined.

(** *** Arithmetic of the delays *)

Lemma wrap64_id z : in_int64 z = true -> wrap64 z = z.
Proof.
  unfold in_int64, wrap64, minInt64, maxInt64.
  rewrite andb_true_iff, !Z.leb_le. intros [Hlo Hhi].
  rewrite Z.mod_small; lia.
Qed.

Lemma increase_exact b : in_int64 (2 * b) = true -> increase b = 2 * b.
Proof.
  intros Hr. unfold increase, Duration_of_float64, Qtrunc, float64_of_int64.
  cbn [Qmult Qnum Qden inject_Z Pos.mul].
  rewrite Z.quot_1_r, (Z.mul_comm b 2), Hr. reflexivity.
Qed.

Lemma iter_increase_exact (k : nat) b :
  0 < b -> b * 2 ^ Z.of_nat k <= maxInt64 ->
  Nat.iter k increase b = b * 2 ^ Z.of_nat k.
Proof.
  intros Hpos. induction k as [|k IH]; intros Hle.
  - change (Nat.iter 0 increase b) with b. change (Z.of_nat 0) with 0.
    rewrite Z.pow_0_r. lia.
  - replace (Z.of_nat (S k)) with (Z.of_nat k + 1) in * by lia.
    rewrite Z.pow_add_r, Z.pow_1_r in * by lia.
    assert (Hp : 0 < 2 ^ Z.of_nat k) by (apply Z.pow_pos_nonneg; lia).
    rewrite Nat.iter_succ, IH by nia.
    rewrite increase_exact; [lia|].
    unfold in_int64, minInt64, maxInt64 in *.
    rewrite andb_true_iff, !Z.leb_le. nia.
Qed.

Lemma randomJitter_bounds (u : float64) b :
  (0 <= u)%Q -> (u < 1)%Q -> 0 <= b <= maxInt64 ->
  0 <= randomJitter u b /\ 10 * randomJitter u b <= b.
Proof.
  destruct u as [p q]. unfold Qle, Qlt. cbn [Qnum Qden].
  rewrite !Z.mul_1_r, Z.mul_1_l. intros Hp Hlt [Hb Hmax].
  unfold randomJitter, Duration_of_float64, Qtrunc, float64_of_int64.
  cbn [Qmult Qnum Qden inject_Z].
  rewrite Z.mul_1_l, Pos.mul_1_r, Pos2Z.inj_mul.
  set (d := Z.pos q * Z.pos 10).
  assert (Hd : 0 < d) by (subst d; lia).
  rewrite Z.quot_div_nonneg by nia.
  assert (H0 : 0 <= p * b / d) by (apply Z.div_pos; nia).
  assert (H1 : 10 * (p * b / d) <= b).
  { pose proof (Z.mul_div_le (p * b) d Hd) as Hm. subst d. nia. }
  assert (Hr : in_int64 (p * b / d) = true).
  { unfold in_int64, minInt64, maxInt64 in *.
    rewrite andb_true_iff, !Z.leb_le. lia. }
  rewrite Hr. split; assumption.
Qed.

Lemma nextBackoff_min b j maxBackoff :
  in_int64 (b + j) = true -> nextBackoff b j maxBackoff = Z.min (b + j) maxBackoff.
Proof.
  intros Hr. unfold nextBackoff. rewrite (wrap64_id _ Hr).
  destruct (Z.ltb_spec maxBackoff (b + j)); lia.
Qed.

(** *** The rounds that reach the wait *)

(** The [k]-th [select] of a run sees the start delay increased [k]
    times, the jitter drawn in that round and the wait made of both. *)
Lemma selects_nth E maxRetries maxBackoff :
  forall fuel n attempt backoff err r tr (k : nat) x,
    attempt_loop fuel E maxRetries maxBackoff n attempt backoff err = Some (r, tr) ->
    nth_error (selects tr) k = Some x ->
    let b := Nat.iter k increase backoff in
    let j := randomJitter (Float64 E (n + k)%nat) b in
    x = (b, j, nextBackoff b j maxBackoff, ctx_done E (n + k)%nat).
Proof.
  induction fuel as [|fuel IH]; intros n attempt backoff err r tr k x Hrun Hnth;
    apply attempt_loop_inv in Hrun as [(_ & _ & ->)|(_ & fuel' & rest & tr0 & Hf & -> & Hround & Hrest)];
    try (destruct k; discriminate); try discriminate.
  injection Hf as <-. rewrite selects_logged in Hnth.
  destruct Hround as [Hop|e Hop Hcl|e Hop Hcl Heq|e Hop Hcl Hlt Hctx|e r' tr' Hop Hcl Hlt Hctx];
    cbn [selects] in Hnth; try (destruct k; discriminate).
  - destruct k as [|[|k]]; try discriminate.
    cbn [nth_error] in Hnth. injection Hnth as <-.
    change (Nat.iter 0 increase backoff) with backoff.
    rewrite Nat.add_0_r, Hctx. reflexivity.
  - destruct k as [|k].
    + cbn [nth_error] in Hnth. injection Hnth as <-.
      change (Nat.iter 0 increase backoff) with backoff.
      rewrite Nat.add_0_r, Hctx. reflexivity.
    + cbn [nth_error] in Hnth.
      specialize (Hrest _ eq_refl).
      specialize (IH _ _ _ _ _ _ _ _ Hrest Hnth). cbn zeta in IH.
      rewrite Nat.iter_succ_r. replace (n + S k)%nat with (S n + k)%nat by lia.
      exact IH.
Qed.

Lemma ends_with_refl tr : ends_with tr tr.
Proof. exists []. reflexivity. Qed.

Lemma ends_with_cons x tr suffix : ends_with tr suffix -> ends_with (x :: tr) suffix.
Proof. intros [pre ->]. exists (x :: pre). reflexivity. Qed.

Lemma ends_with_logged attempt maxRetries backoff tr suffix :
  ends_with tr suffix -> ends_with (logged attempt maxRetries backoff tr) suffix.
Proof.
  unfold logged. destruct (0 <? attempt); [apply ends_with_cons | trivial].
Qed.

Lemma In_select_logged attempt maxRetries backoff tr b j w c :
  In (Select b j w c) (logged attempt maxRetries backoff tr) -> In (Select b j w c) tr.
Proof.
  unfold logged. destruct (0 <? attempt); [|trivial].
  intros [H|H]; [discriminate | assumption].
Qed.

Lemma In_select_selects tr b j w c :
  In (Select b j w c) tr -> (0 < length (selects tr))%nat.
Proof.
  induction tr as [|ev tr IH]; intros Hin; [destruct Hin|].
  destruct Hin as [->|Hin]; [cbn [selects length]; lia|].
  specialize (IH Hin). destruct ev; cbn [selects length]; lia.
Qed.

Create HintDb trace.
#[local] Hint Resolve ends_with_refl ends_with_cons ends_with_logged : trace.

(** *** Runs in which every attempt fails with a retryable error *)

Section AlwaysRetryable.

Variables (E : Env) (maxRetries : Z) (maxBackoff : Duration).
Hypothesis Hfail : forall n, exists e, operation E n = Some e /\ errorClassifier E e = true.
Hypothesis Hctx : forall n, ctx_done E n = false.

Lemma all_fail_loop :
  forall (k n : nat) attempt backoff err,
    attempt + Z.of_nat k = maxRetries ->
    exists tr,
      attempt_loop (S k) E maxRetries maxBackoff n attempt backoff err
      = Some (operation E (n + k)%nat, tr) /\
      attempts tr = S k /\
      base_delays tr = schedule k backoff /\
      length (completed_waits tr) = k /\
      exhausted tr = true.
Proof.
  induction k as [|k IH]; intros n attempt backoff err Hk;
    destruct (Hfail n) as (e & Hop & Hcl);
    rewrite attempt_loop_unfold, Hop, Hcl; cbn [negb];
    destruct (Z.leb_spec attempt maxRetries); try lia.
  - rewrite Nat.add_0_r, Hop.
    destruct (Z.eqb_spec attempt maxRetries); [|lia].
    eexists; split; [reflexivity|].
    unfold base_delays, exhausted.
    rewrite attempts_logged, selects_logged, completed_waits_logged,
      last_logged by discriminate.
    repeat split.
  - destruct (Z.eqb_spec attempt maxRetries); [lia|]. rewrite Hctx.
    destruct (IH (S n) (attempt + 1) (increase backoff) (Some e)) as
      (tr & Hrun & Hatt & Hbase & Hwaits & Hex); [lia|].
    rewrite Hrun. replace (n + S k)%nat with (S n + k)%nat by lia.
    eexists; split; [reflexivity|].
    unfold base_delays, exhausted in *.
    rewrite attempts_logged, selects_logged, completed_waits_logged,
      last_logged by discriminate.
    cbn [attempts selects completed_waits map length schedule fst].
    rewrite Hatt, Hbase, Hwaits. repeat split.
    destruct tr as [|ev tr]; [discriminate|]. exact Hex.
Qed.

Lemma all_fail_run initialBackoff :
  0 <= maxRetries ->
  exists tr,
    RetryWithBackoff E maxRetries initialBackoff maxBackoff
    = Some (operation E (Z.to_nat maxRetries), tr) /\
    attempts tr = Z.to_nat (maxRetries + 1) /\
    base_delays tr = schedule (Z.to_nat maxRetries) initialBackoff /\
    length (completed_waits tr) = Z.to_nat maxRetries /\
    exhausted tr = true.
Proof.
  intros Hmr. unfold RetryWithBackoff.
  replace (Z.to_nat (maxRetries + 1)) with (S (Z.to_nat maxRetries)) by lia.
  apply (all_fail_loop (Z.to_nat maxRetries) 0%nat 0 initialBackoff None). lia.
Qed.

End AlwaysRetryable.



(** C2, as the code has it. Every call returns, and in its run the base
    delay of retry [n] (the delay before attempt [n + 1]) is
    [initialBackoff * 2^(n-1)]: the doubled base is not capped at
    [maxBackoff]. The jitter lies between [0] and a tenth of that base,
    and the wait is the smaller of [base + jitter] and [maxBackoff]. The
    start delay is taken below [2^53] nanoseconds, where its conversion
    to [float64] is exact, the doubled delay to fit in an [int64] and the
    draws to lie in the interval from 0 to 1. *)
Theorem retry_delay_schedule
    (E : Env) (maxRetries : Z) (initialBackoff maxBackoff : Duration) :
  0 < initialBackoff <= 2 ^ 53 ->
  (forall m, (0 <= Float64 E m)%Q /\ (Float64 E m < 1)%Q) ->
  exists r tr,
    RetryWithBackoff E maxRetries initialBackoff maxBackoff = Some (r, tr) /\
    forall (n : nat) (b j w : Duration) (c : bool),
      (1 <= n)%nat ->
      initialBackoff * 2 ^ Z.of_nat n <= maxInt64 ->
      nth_error (selects tr) (n - 1) = Some (b, j, w, c) ->
      b = initialBackoff * 2 ^ Z.of_nat (n - 1) /\
      0 <= j /\ 10 * j <= b /\
      w = Z.min (b + j) maxBackoff.
Proof.
  intros [Hpos _] Hdraw.
  destruct (RetryWithBackoff_total E maxRetries initialBackoff maxBackoff)
    as (r & tr & Hrun).
  exists r, tr. split; [exact Hrun|].
  intros n b j w c Hn Hfit Hnth.
  pose proof (selects_nth _ _ _ _ _ _ _ _ _ _ _ _ Hrun Hnth) as Heq.
  cbn zeta in Heq. rewrite Nat.add_0_l in Heq.
  assert (Hpow : 2 ^ Z.of_nat n = 2 * 2 ^ Z.of_nat (n - 1)).
  { replace (Z.of_nat n) with (Z.of_nat (n - 1) + 1) by lia.
    rewrite Z.pow_add_r, Z.pow_1_r by lia. lia. }
  assert (Hp : 0 < 2 ^ Z.of_nat (n - 1)) by (apply Z.pow_pos_nonneg; lia).
  rewrite iter_increase_exact in Heq by nia.
  injection Heq as -> -> -> ->.
  set (base := initialBackoff * 2 ^ Z.of_nat (n - 1)) in *.
  destruct (Hdraw (n - 1)%nat) as [Hu0 Hu1].
  destruct (randomJitter_bounds (Float64 E (n - 1)) base Hu0 Hu1) as [Hj0 Hj1];
    [subst base; nia|].
  repeat split; try assumption.
  apply nextBackoff_min.
  unfold in_int64, minInt64, maxInt64 in *.
  rewrite andb_true_iff, !Z.leb_le. subst base. nia.
Qed.

Lemma retry_delay_schedule_witness :
  nth_error
    (selects
       (match RetryWithBackoff half_jitter_caller 5 (1 * Second) (10 * Second) with
        | Some (_, tr) => tr
        | None => []
        end)) (5 - 1)
  = Some (16 * Second, 800 * Millisecond, 10 * Second, false) /\
  16 * Second = 1 * Second * 2 ^ Z.of_nat (5 - 1) /\
  0 <= 800 * Millisecond /\ 10 * (800 * Millisecond) <= 16 * Second /\
  10 * Second = Z.min (16 * Second + 800 * Millisecond) (10 * Second).
Proof.
  destruct (retry_delay_schedule half_jitter_caller 5 (1 * Second) (10 * Second))
    as (r & tr & Hrun & Hsched).
  - split; [reflexivity | vm_compute; discriminate].
  - intros m. split; vm_compute; [discriminate | reflexivity].
  - rewrite Hrun.
    assert (Hnth : nth_error (selects tr) (5 - 1)
                   = Some (16 * Second, 800 * Millisecond, 10 * Second, false)).
    { revert Hrun. vm_compute. intros Hrun. injection Hrun as <- <-. reflexivity. }
    split; [exact Hnth|].
    apply (Hsched 5%nat _ _ _ false); [lia | vm_compute; discriminate | exact Hnth].
Defined.

(** C2 as stated fails: with [initialBackoff] of 1s, [maxBackoff] of 10s
    and six attempts, the base delay of the fifth retry is 16s, not the
    capped [min(1s * 2^4, 10s) = 10s], and with a draw of 0.9 the jitter
    of that round is 1.44s, more than a tenth of the capped base. *)
Lemma base_delay_not_capped_counterexample :
  exists r tr,
    RetryWithBackoff
      (always_failing (New "connection reset by peer")
         (fun e => IsRetryableError (Some e)) (9 # 10) (fun _ => false))
      5 (1 * Second) (10 * Second) = Some (r, tr) /\
    nth_error (selects tr) 4
    = Some (16 * Second, 1440 * Millisecond, 10 * Second, false) /\
    16 * Second <> Z.min (1 * Second * 2 ^ 4) (10 * Second) /\
    ~ (10 * (1440 * Millisecond) <= Z.min (1 * Second * 2 ^ 4) (10 * Second)).
Proof.
  eexists; eexists. split; [vm_compute; reflexivity|].
  split; [vm_compute; reflexivity|].
  split; [vm_compute; discriminate|].
  vm_compute. intros H. apply H. reflexivity.
Qed.

(** *** How a failing run ends *)

(** A run that returns an error ended in one of three ways, and in the
    first two the error returned is the very value the last call of the
    operation returned. *)
Lemma failing_loop_ending E maxRetries maxBackoff :
  forall fuel n attempt backoff err0 err tr,
    attempt <= maxRetries ->
    attempt_loop fuel E maxRetries maxBackoff n attempt backoff err0
    = Some (Some err, tr) ->
    (errorClassifier E err = false /\
     ends_with tr [Call (Some err); Classify err false]) \/
    (errorClassifier E err = true /\
     ends_with tr [Call (Some err); Classify err true;
                   LogError (wrap64 (maxRetries + 1)) err] /\
     attempts tr = Z.to_nat (maxRetries - attempt + 1)) \/
    (err = cancelled_error /\
     exists b j w, ends_with tr [Select b j w true]).
Proof.
  induction fuel as [|fuel IH]; intros n attempt backoff err0 err tr Hle Hrun;
    apply attempt_loop_inv in Hrun
      as [(Hgt & _)|(_ & fuel' & rest & tr0 & Hf & -> & Hround & Hrest)];
    try lia; try discriminate.
  injection Hf as <-.
  inversion Hround as [Hop|e Hop Hcl|e Hop Hcl Heq|e Hop Hcl Hlt Hctx
                       |e r' tr' Hop Hcl Hlt Hctx]; subst.
  - left. split; [assumption|]. auto with trace.
  - right; left. split; [assumption|]. split; [auto with trace|].
    rewrite attempts_logged. cbn [attempts]. lia.
  - right; right. split; [reflexivity|]. do 3 eexists. auto 6 with trace.
  - specialize (Hrest _ eq_refl).
    apply IH in Hrest; [|lia].
    destruct Hrest as [(Hc & He)|[(Hc & He & Ha)|(Hc & b & j & w & He)]].
    + left. split; [assumption|]. auto 6 with trace.
    + right; left. split; [assumption|]. split; [auto 6 with trace|].
      rewrite attempts_logged. cbn [attempts]. rewrite Ha. lia.
    + right; right. split; [assumption|]. exists b, j, w. auto 6 with trace.
Qed.

(** C4, as the code has it. [RetryWithBackoff] has no error types of its
    own for the two conditions: every call returns, and a failing run
    returns the operation's error itself. When the classifier rejects an
    error, that error is returned at once, the classification being the
    last step of the run (no wait follows); when all [maxRetries + 1]
    attempts failed with a retryable error, the error of the last attempt
    is returned after the [logger.Error] line; the only other failure is
    the cancellation error. The same error value is returned by an
    exhausted run and by a rejected one, so the value alone does not tell
    them apart. *)
Theorem failing_run_returns_operation_error :
  (forall (E : Env) (maxRetries : Z) (initialBackoff maxBackoff : Duration),
      exists r tr,
        RetryWithBackoff E maxRetries initialBackoff maxBackoff = Some (r, tr) /\
        forall err, r = Some err ->
          (errorClassifier E err = false /\
           ends_with tr [Call (Some err); Classify err false]) \/
          (errorClassifier E err = true /\
           ends_with tr [Call (Some err); Classify err true;
                         LogError (wrap64 (maxRetries + 1)) err] /\
           attempts tr = Z.to_nat (maxRetries + 1)) \/
          (err = cancelled_error /\
           exists b j w, ends_with tr [Select b j w true])) /\
  (forall (e : error) (u : float64) (maxRetries : Z)
          (initialBackoff maxBackoff : Duration),
      0 <= maxRetries ->
      exists tr1 tr2,
        RetryWithBackoff (always_failing e (fun _ => true) u (fun _ => false))
          maxRetries initialBackoff maxBackoff = Some (Some e, tr1) /\
        exhausted tr1 = true /\
        RetryWithBackoff (always_failing e (fun _ => false) u (fun _ => false))
          maxRetries initialBackoff maxBackoff = Some (Some e, tr2) /\
        rejected tr2 = true /\ tr2 = [Call (Some e); Classify e false]).
Proof.
  split.
  - intros E maxRetries initialBackoff maxBackoff.
    destruct (RetryWithBackoff_total E maxRetries initialBackoff maxBackoff)
      as (r & tr & Hrun).
    exists r, tr. split; [exact Hrun|]. intros err ->.
    unfold RetryWithBackoff in Hrun.
    destruct (Z.le_gt_cases 0 maxRetries) as [Hle|Hneg].
    + apply failing_loop_ending in Hrun; [|assumption].
      rewrite Z.sub_0_r in Hrun. exact Hrun.
    + apply attempt_loop_inv in Hrun as [(_ & Hr & _)|(Hle & _)];
        [discriminate | lia].
  - intros e u maxRetries initialBackoff maxBackoff Hmr.
    destruct (all_fail_run (always_failing e (fun _ => true) u (fun _ => false))
                maxRetries maxBackoff) with (initialBackoff := initialBackoff)
      as (tr1 & Hrun1 & _ & _ & _ & Hex); try assumption.
    { intros n. exists e. split; reflexivity. }
    { intros n. reflexivity. }
    exists tr1, [Call (Some e); Classify e false].
    split; [exact Hrun1|]. split; [exact Hex|].
    split; [|split; reflexivity].
    unfold RetryWithBackoff.
    replace (Z.to_nat (maxRetries + 1)) with (S (Z.to_nat maxRetries)) by lia.
    rewrite attempt_loop_unfold.
    destruct (Z.leb_spec 0 maxRetries); [reflexivity | lia].
Qed.

Lemma failing_run_returns_operation_error_witness :
  exists tr1 tr2,
    RetryWithBackoff
      (always_failing (New "connection reset by peer") (fun _ => true) (1 # 2)
         (fun _ => false))
      4 (1 * Second) (10 * Second)
    = Some (Some (New "connection reset by peer"), tr1) /\
    exhausted tr1 = true /\
    RetryWithBackoff
      (always_failing (New "connection reset by peer") (fun _ => false) (1 # 2)
         (fun _ => false))
      4 (1 * Second) (10 * Second)
    = Some (Some (New "connection reset by peer"), tr2) /\
    rejected tr2 = true /\
    tr2 = [Call (Some (New "connection reset by peer"));
           Classify (New "connection reset by peer") false].
Proof.
  apply (proj2 failing_run_returns_operation_error
           (New "connection reset by peer") (1 # 2) 4 (1 * Second) (10 * Second)).
  lia.
Defined.

(** C4 as stated fails: no test on the returned error separates the runs
    that gave up from the runs the classifier stopped. An operation that
    fails with ["connection reset by peer"] returns that same, unwrapped
    error after five attempts under a classifier that accepts it and
    after one attempt under a classifier that rejects it. *)
Lemma exhausted_and_rejected_not_distinguishable_counterexample :
  ~ exists distinguish : error -> bool,
      forall (E : Env) (maxRetries : Z) (initialBackoff maxBackoff : Duration)
             (err : error) (tr : list Event),
        RetryWithBackoff E maxRetries initialBackoff maxBackoff
        = Some (Some err, tr) ->
        (exhausted tr = true -> distinguish err = true) /\
        (rejected tr = true -> distinguish err = false).
Proof.
  intros [distinguish H].
  set (e := New "connection reset by peer").
  destruct (H (always_failing e (fun _ => true) (1 # 2) (fun _ => false))
              4 (1 * Second) (10 * Second) e
              [Call (Some e); Classify e true;
               Select 1000000000 50000000 1050000000 false;
               LogInfo 1 4 2000000000; Call (Some e); Classify e true;
               Select 2000000000 100000000 2100000000 false;
               LogInfo 2 4 4000000000; Call (Some e); Classify e true;
               Select 4000000000 200000000 4200000000 false;
               LogInfo 3 4 8000000000; Call (Some e); Classify e true;
               Select 8000000000 400000000 8400000000 false;
               LogInfo 4 4 16000000000; Call (Some e); Classify e true;
               LogError 5 e]) as [Hex _]; [vm_compute; reflexivity|].
  destruct (H (always_failing e (fun _ => false) (1 # 2) (fun _ => false))
              4 (1 * Second) (10 * Second) e
              [Call (Some e); Classify e false]) as [_ Hrej];
    [vm_compute; reflexivity|].
  specialize (Hex eq_refl). specialize (Hrej eq_refl). congruence.
Qed.

(** *** Cancellation during the wait *)

Lemma cancelled_select_is_last E maxRetries maxBackoff :
  forall fuel n attempt backoff err0 r tr b j w,
    attempt_loop fuel E maxRetries maxBackoff n attempt backoff err0 = Some (r, tr) ->
    In (Select b j w true) tr ->
    r = Some cancelled_error /\
    ends_with tr [Select b j w true] /\
    after_cancel tr = Some [] /\
    attempts tr = length (selects tr) /\
    length (completed_waits tr) = (length (selects tr) - 1)%nat.
Proof.
  induction fuel as [|fuel IH]; intros n attempt backoff err0 r tr b j w Hrun Hin;
    apply attempt_loop_inv in Hrun
      as [(_ & _ & ->)|(_ & fuel' & rest & tr0 & Hf & -> & Hround & Hrest)];
    try (destruct Hin); try discriminate.
  injection Hf as <-. apply In_select_logged in Hin.
  rewrite after_cancel_logged, attempts_logged, selects_logged,
    completed_waits_logged.
  inversion Hround as [Hop|e Hop Hcl|e Hop Hcl Heq|e Hop Hcl Hlt Hctx
                       |e r' tr' Hop Hcl Hlt Hctx]; subst;
    cbn [In] in Hin.
  - destruct Hin as [H|[]]; discriminate.
  - destruct Hin as [H|[H|[]]]; discriminate.
  - destruct Hin as [H|[H|[H|[]]]]; discriminate.
  - destruct Hin as [H|[H|[H|[]]]]; try discriminate.
    injection H as <- <- <-.
    repeat split; auto 6 with trace.
  - destruct Hin as [H|[H|[H|Hin]]]; try discriminate.
    specialize (Hrest _ eq_refl).
    destruct (IH _ _ _ _ _ _ _ _ _ Hrest Hin) as (Hr & He & Hac & Hat & Hcw).
    cbn [after_cancel attempts selects completed_waits length].
    pose proof (In_select_selects _ _ _ _ _ Hin) as Hlen.
    repeat split; auto 6 with trace; lia.
Qed.

(** The run in which the context is cancelled during the wait of round
    [k]: the rounds before it fail with retryable errors and wait to the
    end, round [k] fails with a retryable error and its [select] receives
    from [ctx.Done()]. *)
Lemma loop_cancelled_at E maxRetries maxBackoff :
  forall (k fuel n : nat) attempt backoff err0 e,
    (forall i, (i < k)%nat ->
       exists e', operation E (n + i)%nat = Some e' /\
                  errorClassifier E e' = true /\ ctx_done E (n + i)%nat = false) ->
    operation E (n + k)%nat = Some e ->
    errorClassifier E e = true ->
    ctx_done E (n + k)%nat = true ->
    attempt + Z.of_nat k < maxRetries ->
    (k < fuel)%nat ->
    exists tr,
      attempt_loop fuel E maxRetries maxBackoff n attempt backoff err0
      = Some (Some cancelled_error, tr) /\
      ends_with tr
        [Call (Some e); Classify e true;
         Select (Nat.iter k increase backoff)
           (randomJitter (Float64 E (n + k)%nat) (Nat.iter k increase backoff))
           (nextBackoff (Nat.iter k increase backoff)
              (randomJitter (Float64 E (n + k)%nat) (Nat.iter k increase backoff))
              maxBackoff)
           true] /\
      attempts tr = S k /\
      calls tr = map (operation E) (seq n (S k)) /\
      length (completed_waits tr) = k.
Proof.
  induction k as [|k IH];
    intros fuel n attempt backoff err0 e Hretry Hop Hcl Hctx Hlt Hfuel;
    (destruct fuel as [|fuel]; [lia|]); rewrite attempt_loop_unfold;
    destruct (Z.leb_spec attempt maxRetries); try lia.
  - rewrite Nat.add_0_r in *. rewrite Hop, Hcl. cbn [negb].
    destruct (Z.eqb_spec attempt maxRetries); [lia|]. cbn zeta. rewrite Hctx.
    eexists. split; [reflexivity|].
    change (Nat.iter 0 increase backoff) with backoff.
    rewrite attempts_logged, completed_waits_logged.
    split; [auto with trace|]. split; [reflexivity|]. split; [|reflexivity].
    unfold logged. destruct (0 <? attempt); cbn [calls seq map]; rewrite Hop;
      reflexivity.
  - destruct (Hretry 0%nat) as (e0 & Hop0 & Hcl0 & Hctx0); [lia|].
    rewrite Nat.add_0_r in Hop0, Hctx0. rewrite Hop0, Hcl0. cbn [negb].
    destruct (Z.eqb_spec attempt maxRetries); [lia|]. cbn zeta. rewrite Hctx0.
    destruct (IH fuel (S n) (attempt + 1) (increase backoff) (Some e0) e)
      as (tr & Hrun & Hend & Hatt & Hcalls & Hcw).
    + intros i Hi. replace (S n + i)%nat with (n + S i)%nat by lia.
      apply Hretry. lia.
    + replace (S n + k)%nat with (n + S k)%nat by lia. exact Hop.
    + exact Hcl.
    + replace (S n + k)%nat with (n + S k)%nat by lia. exact Hctx.
    + lia.
    + lia.
    + rewrite Hrun. eexists. split; [reflexivity|].
      rewrite attempts_logged, completed_waits_logged.
      rewrite Nat.iter_succ_r.
      replace (S n + k)%nat with (n + S k)%nat in Hend by lia.
      split; [auto 6 with trace|].
      cbn [attempts completed_waits length]. rewrite Hatt, Hcw.
      split; [reflexivity|]. split; [|reflexivity].
      unfold logged. destruct (0 <? attempt); cbn [calls]; rewrite Hcalls;
        cbn [seq map]; rewrite Hop0; reflexivity.
Qed.

(** C8. Whenever the caller's context is cancelled while
    [RetryWithBackoff] waits between two attempts, that is, whenever the
    [select] of a round [k] ([k] retried failures before it, a retryable
    failure in it, [k < maxRetries]) receives from [ctx.Done()], the call
    returns the cancellation error at that [select]: the timer of that
    wait is not run to its end (only the [k] earlier waits were
    completed), the [select] is the last step of the run, and the
    operation is called [k + 1] times and never again. *)
Theorem cancellation_during_wait_aborts
    (E : Env) (maxRetries : Z) (initialBackoff maxBackoff : Duration)
    (k : nat) (e : error) :
  (forall i, (i < k)%nat ->
     exists e', operation E i = Some e' /\
                errorClassifier E e' = true /\ ctx_done E i = false) ->
  operation E k = Some e ->
  errorClassifier E e = true ->
  Z.of_nat k < maxRetries ->
  ctx_done E k = true ->
  exists tr,
    RetryWithBackoff E maxRetries initialBackoff maxBackoff
    = Some (Some cancelled_error, tr) /\
    ends_with tr
      [Call (Some e); Classify e true;
       Select (Nat.iter k increase initialBackoff)
         (randomJitter (Float64 E k) (Nat.iter k increase initialBackoff))
         (nextBackoff (Nat.iter k increase initialBackoff)
            (randomJitter (Float64 E k) (Nat.iter k increase initialBackoff))
            maxBackoff)
         true] /\
    after_cancel tr = Some [] /\
    attempts tr = S k /\
    calls tr = map (operation E) (seq 0 (S k)) /\
    length (selects tr) = S k /\
    length (completed_waits tr) = k.
Proof.
  intros Hretry Hop Hcl Hk Hctx. unfold RetryWithBackoff.
  destruct (loop_cancelled_at E maxRetries maxBackoff k
              (Z.to_nat (maxRetries + 1)) 0%nat 0 initialBackoff None e)
    as (tr & Hrun & Hend & Hatt & Hcalls & Hcw);
    [exact Hretry | exact Hop | exact Hcl | exact Hctx | lia | lia |].
  exists tr. split; [exact Hrun|]. split; [exact Hend|].
  assert (Hin : In (Select (Nat.iter k increase initialBackoff)
                      (randomJitter (Float64 E k) (Nat.iter k increase initialBackoff))
                      (nextBackoff (Nat.iter k increase initialBackoff)
                         (randomJitter (Float64 E k)
                            (Nat.iter k increase initialBackoff)) maxBackoff)
                      true) tr).
  { destruct Hend as [pre ->]. apply in_or_app. right.
    cbn [In]. right. right. left. reflexivity. }
  destruct (cancelled_select_is_last _ _ _ _ _ _ _ _ _ _ _ _ _ Hrun Hin)
    as (_ & _ & Hafter & Hsel & _).
  split; [exact Hafter|]. split; [exact Hatt|]. split; [exact Hcalls|].
  split; [rewrite <- Hsel; exact Hatt | exact Hcw].
Qed.

Lemma cancellation_during_wait_aborts_witness :
  exists tr,
    RetryWithBackoff cancelled_in_second_wait 4 (1 * Second) (10 * Second)
    = Some (Some cancelled_error, tr) /\
    ends_with tr
      [Call (Some (New "connection reset by peer"));
       Classify (New "connection reset by peer") true;
       Select (Nat.iter 1 increase (1 * Second))
         (randomJitter (Float64 cancelled_in_second_wait 1)
            (Nat.iter 1 increase (1 * Second)))
         (nextBackoff (Nat.iter 1 increase (1 * Second))
            (randomJitter (Float64 cancelled_in_second_wait 1)
               (Nat.iter 1 increase (1 * Second)))
            (10 * Second))
         true] /\
    after_cancel tr = Some [] /\
    attempts tr = 2%nat /\
    calls tr = map (operation cancelled_in_second_wait) (seq 0 2) /\
    length (selects tr) = 2%nat /\
    length (completed_waits tr) = 1%nat.
Proof.
  apply (cancellation_during_wait_aborts cancelled_in_second_wait
           4 (1 * Second) (10 * Second) 1 (New "connection reset by peer")).
  - intros i Hi. exists (New "connection reset by peer").
    destruct i as [|i]; [repeat split | lia].
  - reflexivity.
  - reflexivity.
  - lia.
  - reflexivity.
Defined.

Example cancelled_in_second_wait_run :
  RetryWithBackoff cancelled_in_second_wait 4 (1 * Second) (10 * Second)
  = Some (Some cancelled_error, cancelled_in_second_wait_trace).
Proof. vm_compute. reflexivity. Qed.

(** * Properties of the cache store *)

(** What a successful [createCache] returns and stores. *)
Lemma createCache_success s now1 now2 req info s' :
  createCache s now1 now2 req = (inl info, s') ->
  exists ttl,
    resolved_ttl s req = Some ttl /\
    info = {| ID := cache_id (UnixNano now1);
              SystemPrompt := reqSystemPrompt req;
              Model := reqModel req;
              FilePaths := reqFilePaths req;
              CreatedAt := now2;
              ExpiresAt := Add now2 ttl |} /\
    s' = set_caches s (<[ID info := info]> (caches s)).
Proof.
  unfold createCache, resolved_ttl.
  destruct (negb (EnableCaching (config s))); [discriminate|].
  destruct (String.eqb (reqModel req) ""); [discriminate|].
  destruct (ValidateModelID (reqModel req)); [discriminate|].
  destruct (String.eqb (reqTTL req) "").
  - intros H. injection H as <- <-. eexists. repeat split.
  - destruct (ParseDuration (reqTTL req)) as [ttl|err]; [|discriminate].
    intros H. injection H as <- <-. eexists. repeat split.
Qed.

Lemma createCache_stores s now1 now2 req info s' :
  createCache s now1 now2 req = (inl info, s') ->
  caches s' !! ID info = Some info.
Proof.
  intros H. apply createCache_success in H as (ttl & _ & _ & ->).
  cbn [caches set_caches]. apply lookup_insert_eq.
Qed.

(** When it does succeed: caching on, a known model, a [ttl] that is
    empty or parses. *)
Lemma createCache_succeeds s now1 now2 req ttl :
  EnableCaching (config s) = true ->
  GetModelByID (reqModel req) <> None ->
  resolved_ttl s req = Some ttl ->
  exists info,
    createCache s now1 now2 req
    = (inl info, set_caches s (<[ID info := info]> (caches s))) /\
    CreatedAt info = now2 /\ ExpiresAt info = Add now2 ttl.
Proof.
  intros Hen Hmodel Httl. unfold createCache, resolved_ttl in *.
  rewrite Hen. cbn [negb].
  destruct (String.eqb_spec (reqModel req) "") as [Hempty|_].
  { exfalso. apply Hmodel. rewrite Hempty. reflexivity. }
  unfold ValidateModelID.
  destruct (GetModelByID (reqModel req)); [|congruence].
  destruct (String.eqb (reqTTL req) "").
  - injection Httl as <-.
    exists {| ID := cache_id (UnixNano now1);
              SystemPrompt := reqSystemPrompt req;
              Model := reqModel req;
              FilePaths := reqFilePaths req;
              CreatedAt := now2;
              ExpiresAt := Add now2 (DefaultCacheTTL (config s)) |}.
    split; [reflexivity|]. split; reflexivity.
  - destruct (ParseDuration (reqTTL req)) as [d'|]; [|discriminate].
    injection Httl as <-.
    exists {| ID := cache_id (UnixNano now1);
              SystemPrompt := reqSystemPrompt req;
              Model := reqModel req;
              FilePaths := reqFilePaths req;
              CreatedAt := now2;
              ExpiresAt := Add now2 d' |}.
    split; [reflexivity|]. split; reflexivity.
Qed.

Lemma Sub_Add t d : in_int64 d = true -> Sub (Add t d) t = d.
Proof.
  unfold in_int64, Sub, Add. rewrite andb_true_iff, !Z.leb_le. intros [Hlo Hhi].
  replace (t + d - t) with d by lia.
  destruct (Z.ltb_spec d minInt64); [lia|].
  destruct (Z.ltb_spec maxInt64 d); [lia | reflexivity].
Qed.

(** C10. With [EnableCaching] off, [createCache] fails with the error
    "caching is disabled" whatever the request and the clock are: the
    model, the ttl and the clock are not looked at, and the server, its
    table included, is left as it was. *)
Theorem createCache_disabled
    (s : DeepseekServer) (now1 now2 : Time) (req : CacheRequest) :
  EnableCaching (config s) = false ->
  createCache s now1 now2 req = (inr (New "caching is disabled"), s).
Proof. intros H. unfold createCache. rewrite H. reflexivity. Qed.

Lemma createCache_disabled_witness :
  createCache disabled_server 1700000000000000000 1700000000000000050
    {| reqModel := "no-such-model"; reqSystemPrompt := "";
       reqFilePaths := []; reqTTL := "soon" |}
  = (inr (New "caching is disabled"), disabled_server).
Proof.
  apply (createCache_disabled disabled_server
           1700000000000000000 1700000000000000050).
  reflexivity.
Defined.

(** C7. A successful [createCache] whose ttl (the parsed [ttl], or the
    default for an empty one) is positive returns an entry with
    [ExpiresAt - CreatedAt] equal to that ttl exactly; [CreatedAt] is the
    clock reading taken at creation, and the entry is stored and read
    back as it was returned. *)
Theorem createCache_expiry_is_ttl
    (s s' : DeepseekServer) (now1 now2 : Time) (req : CacheRequest)
    (info : CacheInfo) (ttl : Duration) :
  createCache s now1 now2 req = (inl info, s') ->
  resolved_ttl s req = Some ttl ->
  0 < ttl -> in_int64 ttl = true ->
  Sub (ExpiresAt info) (CreatedAt info) = ttl /\
  CreatedAt info = now2 /\
  forall now, now <= ExpiresAt info -> getCache s' now (ID info) = (inl info, s').
Proof.
  intros Hc Httl Hpos Hrange.
  pose proof (createCache_stores _ _ _ _ _ _ Hc) as Hst.
  apply createCache_success in Hc as (ttl' & Httl' & Hinfo & Hs').
  assert (ttl' = ttl) as -> by congruence.
  split; [|split].
  - rewrite Hinfo. cbn [ExpiresAt CreatedAt]. apply Sub_Add, Hrange.
  - rewrite Hinfo. reflexivity.
  - intros now Hnow. unfold getCache. rewrite Hst. unfold After.
    destruct (Z.ltb_spec (ExpiresAt info) now); [lia | reflexivity].
Qed.

Lemma createCache_chat_10m :
  createCache fresh_server 1700000000000000000 1700000000000000050 (chat_request "10m")
  = (inl (entry_of 1700000000000000000 1700000000000000050
            (chat_request "10m") (10 * Minute)),
     with_entry fresh_server
       (entry_of 1700000000000000000 1700000000000000050
          (chat_request "10m") (10 * Minute))).
Proof. reflexivity. Qed.

Lemma createCache_expiry_is_ttl_witness :
  Sub (ExpiresAt (entry_of 1700000000000000000 1700000000000000050
                    (chat_request "10m") (10 * Minute)))
      (CreatedAt (entry_of 1700000000000000000 1700000000000000050
                    (chat_request "10m") (10 * Minute)))
  = 10 * Minute.
Proof.
  apply (createCache_expiry_is_ttl fresh_server
           (with_entry fresh_server
              (entry_of 1700000000000000000 1700000000000000050
                 (chat_request "10m") (10 * Minute)))
           1700000000000000000 1700000000000000050 (chat_request "10m")
           (entry_of 1700000000000000000 1700000000000000050
              (chat_request "10m") (10 * Minute))
           (10 * Minute)).
  - reflexivity.
  - reflexivity.
  - reflexivity.
  - reflexivity.
Defined.

Lemma getCache_absent s now id :
  caches s !! id = None ->
  getCache s now id = (inr (Errorf_s "cache not found: " id), s).
Proof. intros H. unfold getCache. rewrite H. reflexivity. Qed.

Lemma getCache_each_absent s nows id :
  caches s !! id = None ->
  getCache_each s nows id
  = (map (fun _ => inr (Errorf_s "cache not found: " id)) nows, s).
Proof.
  intros H. induction nows as [|now rest IH]; [reflexivity|].
  cbn [getCache_each map]. rewrite (getCache_absent _ _ _ H), IH. reflexivity.
Qed.

(** C6. For an entry of the table (entries get there through
    [createCache] only): once the clock reads past its [ExpiresAt], the
    next [getCache] of its id deletes it and fails with "cache has
    expired"; every later [getCache] of that id fails with "cache not
    found" and changes nothing; the two errors differ. *)
Theorem getCache_expired_then_not_found
    (s : DeepseekServer) (id : string) (info : CacheInfo) (now : Time) :
  caches s !! id = Some info ->
  ExpiresAt info < now ->
  getCache s now id
  = (inr (New "cache has expired"), set_caches s (delete id (caches s))) /\
  caches (set_caches s (delete id (caches s))) !! id = None /\
  (forall nows,
      getCache_each (set_caches s (delete id (caches s))) nows id
      = (map (fun _ => inr (Errorf_s "cache not found: " id)) nows,
         set_caches s (delete id (caches s)))) /\
  New "cache has expired" <> Errorf_s "cache not found: " id.
Proof.
  intros Hin Hexp.
  assert (Hgone : caches (set_caches s (delete id (caches s))) !! id = None)
    by (cbn [caches set_caches]; apply lookup_delete_eq).
  split; [|split; [exact Hgone|split]].
  - unfold getCache, After. rewrite Hin.
    destruct (Z.ltb_spec (ExpiresAt info) now); [reflexivity | lia].
  - intros nows. apply getCache_each_absent, Hgone.
  - unfold New, Errorf_s. cbn. intros H. discriminate H.
Qed.

Lemma getCache_expired_then_not_found_witness :
  getCache
    (with_entry fresh_server
       (entry_of 1700000000000000000 1700000000000000050
          (chat_request "10m") (10 * Minute)))
    (1700000000000000050 + 10 * Minute + 1)
    "cache-1700000000000000000"
  = (inr (New "cache has expired"),
     set_caches
       (with_entry fresh_server
          (entry_of 1700000000000000000 1700000000000000050
             (chat_request "10m") (10 * Minute)))
       (delete "cache-1700000000000000000"
          (caches (with_entry fresh_server
                     (entry_of 1700000000000000000 1700000000000000050
                        (chat_request "10m") (10 * Minute)))))).
Proof.
  apply (getCache_expired_then_not_found
           (with_entry fresh_server
              (entry_of 1700000000000000000 1700000000000000050
                 (chat_request "10m") (10 * Minute)))
           "cache-1700000000000000000"
           (entry_of 1700000000000000000 1700000000000000050
              (chat_request "10m") (10 * Minute))
           (1700000000000000050 + 10 * Minute + 1)).
  - vm_compute. reflexivity.
  - vm_compute. reflexivity.
Defined.

Lemma ParseDuration_empty : exists err, ParseDuration "" = inr err.
Proof. eexists. reflexivity. Qed.

(** C5, as the code has it. [createCache] does not look at the sign of
    the ttl: with caching on and a known model, a call whose [ttl] parses
    to a zero or negative duration succeeds, and it stores and returns
    an entry with [ExpiresAt = CreatedAt + ttl], not after [CreatedAt];
    any [getCache] of it with a later clock reading reports it expired. *)
Theorem createCache_accepts_nonpositive_ttl
    (s : DeepseekServer) (now1 now2 : Time) (req : CacheRequest) (ttl : Duration) :
  EnableCaching (config s) = true ->
  GetModelByID (reqModel req) <> None ->
  ParseDuration (reqTTL req) = inl ttl ->
  ttl <= 0 ->
  exists info,
    createCache s now1 now2 req = (inl info, with_entry s info) /\
    caches (with_entry s info) !! ID info = Some info /\
    CreatedAt info = now2 /\
    ExpiresAt info = Add (CreatedAt info) ttl /\
    ExpiresAt info <= CreatedAt info /\
    forall now, CreatedAt info < now ->
      fst (getCache (with_entry s info) now (ID info)) = inr (New "cache has expired").
Proof.
  intros Hen Hmodel Hparse Hneg.
  assert (Httl : resolved_ttl s req = Some ttl).
  { unfold resolved_ttl.
    destruct (String.eqb_spec (reqTTL req) "") as [Hempty|_].
    - rewrite Hempty in Hparse. destruct ParseDuration_empty as [err He].
      rewrite He in Hparse. discriminate.
    - rewrite Hparse. reflexivity. }
  destruct (createCache_succeeds s now1 now2 req ttl Hen Hmodel Httl)
    as (info & Hrun & Hcreated & Hexpires).
  exists info. unfold with_entry.
  split; [exact Hrun|].
  pose proof (createCache_stores _ _ _ _ _ _ Hrun) as Hst.
  split; [exact Hst|]. split; [exact Hcreated|].
  rewrite Hcreated, Hexpires. unfold Add.
  split; [reflexivity|]. split; [lia|].
  intros now Hnow. unfold getCache. rewrite Hst, Hexpires. unfold After, Add.
  destruct (Z.ltb_spec (now2 + ttl) now); [reflexivity | lia].
Qed.

Lemma createCache_accepts_nonpositive_ttl_witness :
  exists info,
    createCache fresh_server 1700000000000000000 1700000000000000050
      (chat_request "0") = (inl info, with_entry fresh_server info) /\
    caches (with_entry fresh_server info) !! ID info = Some info /\
    CreatedAt info = 1700000000000000050 /\
    ExpiresAt info = Add (CreatedAt info) 0 /\
    ExpiresAt info <= CreatedAt info /\
    forall now, CreatedAt info < now ->
      fst (getCache (with_entry fresh_server info) now (ID info))
      = inr (New "cache has expired").
Proof.
  apply (createCache_accepts_nonpositive_ttl fresh_server
           1700000000000000000 1700000000000000050 (chat_request "0") 0).
  - reflexivity.
  - vm_compute. discriminate.
  - reflexivity.
  - lia.
Defined.

(** C5 as stated fails: the ttl ["-1h"] parses to minus one hour, and
    [createCache] succeeds with it: the entry is stored with an
    [ExpiresAt] one hour before its [CreatedAt]. *)
Lemma negative_ttl_is_stored_counterexample :
  ParseDuration "-1h" = inl (- (1 * Hour)) /\
  - (1 * Hour) <= 0 /\
  createCache fresh_server 1700000000000000000 1700000000000000050
    (chat_request "-1h")
  = (inl (entry_of 1700000000000000000 1700000000000000050
            (chat_request "-1h") (- (1 * Hour))),
     with_entry fresh_server
       (entry_of 1700000000000000000 1700000000000000050
          (chat_request "-1h") (- (1 * Hour)))) /\
  caches (with_entry fresh_server
            (entry_of 1700000000000000000 1700000000000000050
               (chat_request "-1h") (- (1 * Hour))))
    !! "cache-1700000000000000000"
  = Some (entry_of 1700000000000000000 1700000000000000050
            (chat_request "-1h") (- (1 * Hour))) /\
  ExpiresAt (entry_of 1700000000000000000 1700000000000000050
               (chat_request "-1h") (- (1 * Hour)))
  < CreatedAt (entry_of 1700000000000000000 1700000000000000050
                 (chat_request "-1h") (- (1 * Hour))).
Proof.
  split; [reflexivity|]. split; [vm_compute; discriminate|].
  split; [reflexivity|]. split; [vm_compute; reflexivity|].
  vm_compute. reflexivity.
Qed.

(** Two calls that read the same clock value for the id get the same
    id, and the entry of the second replaces that of the first. *)
Lemma createCache_same_reading s now1 a b req1 req2 info1 s1 info2 s2 :
  createCache s now1 a req1 = (inl info1, s1) ->
  createCache s1 now1 b req2 = (inl info2, s2) ->
  ID info1 = ID info2 /\
  caches s2 !! ID info1 = Some info2 /\
  dom (caches s2) = dom (caches s1).
Proof.
  intros H1 H2.
  pose proof (createCache_stores _ _ _ _ _ _ H1) as Hst1.
  pose proof (createCache_stores _ _ _ _ _ _ H2) as Hst2.
  apply createCache_success in H1 as (ttl1 & _ & Hi1 & Hs1).
  apply createCache_success in H2 as (ttl2 & _ & Hi2 & Hs2).
  assert (Hid : ID info1 = ID info2) by (rewrite Hi1, Hi2; reflexivity).
  split; [exact Hid|]. split; [rewrite Hid; exact Hst2|].
  rewrite Hs2. cbn [caches set_caches]. rewrite dom_insert_L.
  apply subseteq_union_1_L, singleton_subseteq_l, elem_of_dom.
  rewrite <- Hid, Hst1. eauto.
Qed.

(** Distinct clock readings give distinct ids. *)
Lemma cache_id_inj n m : cache_id n = cache_id m -> n = m.
Proof.
  unfold cache_id. intros H. cbn in H.
  repeat (injection H as H). exact (pretty_Z_inj n m H).
Qed.

(** C3, the code at the failing input. Two [createCache] calls, for
    different requests, whose [time.Now().UnixNano()] reads the same
    value both succeed with the id ["cache-1700000000000000000"]; the
    table then holds one entry, the second, and the first one is lost. *)
Theorem same_clock_reading_same_id :
  createCache fresh_server 1700000000000000000 1700000000000000050 (chat_request "")
  = (inl (entry_of 1700000000000000000 1700000000000000050
            (chat_request "") (1 * Hour)),
     with_entry fresh_server
       (entry_of 1700000000000000000 1700000000000000050
          (chat_request "") (1 * Hour))) /\
  createCache
    (with_entry fresh_server
       (entry_of 1700000000000000000 1700000000000000050
          (chat_request "") (1 * Hour)))
    1700000000000000000 1700000000000000070 (coder_request "")
  = (inl (entry_of 1700000000000000000 1700000000000000070
            (coder_request "") (1 * Hour)),
     with_entry
       (with_entry fresh_server
          (entry_of 1700000000000000000 1700000000000000050
             (chat_request "") (1 * Hour)))
       (entry_of 1700000000000000000 1700000000000000070
          (coder_request "") (1 * Hour))) /\
  ID (entry_of 1700000000000000000 1700000000000000050 (chat_request "") (1 * Hour))
  = ID (entry_of 1700000000000000000 1700000000000000070
          (coder_request "") (1 * Hour)) /\
  caches
    (with_entry
       (with_entry fresh_server
          (entry_of 1700000000000000000 1700000000000000050
             (chat_request "") (1 * Hour)))
       (entry_of 1700000000000000000 1700000000000000070
          (coder_request "") (1 * Hour)))
  = {[ "cache-1700000000000000000" :=
         entry_of 1700000000000000000 1700000000000000070
           (coder_request "") (1 * Hour) ]}.
Proof.
  split; [reflexivity|]. split; [reflexivity|]. split; [reflexivity|].
  unfold with_entry. cbn [caches set_caches fresh_server].
  change (ID (entry_of 1700000000000000000 1700000000000000050
                (chat_request "") (1 * Hour)))
    with (cache_id 1700000000000000000).
  change (ID (entry_of 1700000000000000000 1700000000000000070
                (coder_request "") (1 * Hour)))
    with (cache_id 1700000000000000000).
  rewrite insert_insert_eq, insert_empty.
  reflexivity.
Qed.

(** * Further properties of the retry executor *)

Section MoreTraceReading.

Variables (attempt maxRetries : Z) (backoff : Duration) (tr : list Event).

Lemma calls_logged : calls (logged attempt maxRetries backoff tr) = calls tr.
Proof. unfold logged. destruct (0 <? attempt); reflexivity. Qed.

End MoreTraceReading.

Lemma nextBackoff_le b j maxBackoff : nextBackoff b j maxBackoff <= maxBackoff.
Proof.
  unfold nextBackoff. destruct (Z.ltb_spec maxBackoff (wrap64 (b + j))); lia.
Qed.

(** The counts of a run from [attempt] on. *)
Lemma loop_counts E maxRetries maxBackoff :
  forall fuel n attempt backoff err r tr,
    attempt_loop fuel E maxRetries maxBackoff n attempt backoff err = Some (r, tr) ->
    (attempts tr <= Z.to_nat (maxRetries - attempt + 1))%nat /\
    (length (selects tr) <= Z.to_nat (maxRetries - attempt))%nat /\
    (length (selects tr) <= attempts tr)%nat /\
    (classifications tr <= attempts tr)%nat.
Proof.
  induction fuel as [|fuel IH]; intros n attempt backoff err r tr Hrun;
    apply attempt_loop_inv in Hrun
      as [(_ & _ & ->)|(Hle & fuel' & rest & tr0 & Hf & -> & Hround & Hrest)];
    try discriminate; try (cbn; lia).
  injection Hf as <-.
  rewrite attempts_logged, selects_logged, classifications_logged.
  inversion Hround as [Hop|e Hop Hcl|e Hop Hcl Heq|e Hop Hcl Hlt Hctx
                       |e r' tr' Hop Hcl Hlt Hctx]; subst;
    cbn [attempts selects classifications length]; try lia.
  specialize (Hrest _ eq_refl).
  destruct (IH _ _ _ _ _ _ Hrest) as (Ha & Hs & Hsa & Hc). lia.
Qed.

(** X1. Every call returns, and never calls the operation more than
    [maxRetries + 1] times nor waits more than [maxRetries] times; a wait
    only follows a call, and the classifier is asked at most once per
    call. *)
Theorem retry_effort_is_bounded
    (E : Env) (maxRetries : Z) (initialBackoff maxBackoff : Duration) :
  exists r tr,
    RetryWithBackoff E maxRetries initialBackoff maxBackoff = Some (r, tr) /\
    (attempts tr <= Z.to_nat (maxRetries + 1))%nat /\
    (length (selects tr) <= Z.to_nat maxRetries)%nat /\
    (length (selects tr) <= attempts tr)%nat /\
    (classifications tr <= attempts tr)%nat.
Proof.
  destruct (RetryWithBackoff_total E maxRetries initialBackoff maxBackoff)
    as (r & tr & Hrun).
  exists r, tr. split; [exact Hrun|].
  apply loop_counts in Hrun. rewrite !Z.sub_0_r in Hrun. exact Hrun.
Qed.

(** X2. Whatever the delays and the draws are, also when the arithmetic
    overflows, no timer is ever set to more than [maxBackoff]. *)
Theorem retry_never_waits_longer_than_maxBackoff
    (E : Env) (maxRetries : Z) (initialBackoff maxBackoff : Duration) :
  exists r tr,
    RetryWithBackoff E maxRetries initialBackoff maxBackoff = Some (r, tr) /\
    Forall (fun w => w <= maxBackoff) (waits tr).
Proof.
  destruct (RetryWithBackoff_total E maxRetries initialBackoff maxBackoff)
    as (r & tr & Hrun).
  exists r, tr. split; [exact Hrun|].
  unfold waits. apply List.Forall_forall. intros w Hin.
  apply List.in_map_iff in Hin as (x & <- & Hin).
  apply List.In_nth_error in Hin as [k Hk].
  pose proof (selects_nth _ _ _ _ _ _ _ _ _ _ _ _ Hrun Hk) as Hx.
  cbn zeta in Hx. rewrite Hx. cbn. apply nextBackoff_le.
Qed.

(** The run stops at the first call whose result does not ask for a
    retry: success, or an error the classifier rejects. *)
Lemma loop_stops_at E maxRetries maxBackoff :
  forall (k fuel n : nat) attempt backoff err0,
    (forall i, (i < k)%nat ->
       exists e, operation E (n + i)%nat = Some e /\
                 errorClassifier E e = true /\ ctx_done E (n + i)%nat = false) ->
    (operation E (n + k)%nat = None \/
     exists e, operation E (n + k)%nat = Some e /\ errorClassifier E e = false) ->
    attempt + Z.of_nat k <= maxRetries ->
    (k < fuel)%nat ->
    exists tr,
      attempt_loop fuel E maxRetries maxBackoff n attempt backoff err0
      = Some (operation E (n + k)%nat, tr) /\
      attempts tr = S k /\
      length (completed_waits tr) = k /\
      length (selects tr) = k.
Proof.
  induction k as [|k IH]; intros fuel n attempt backoff err0 Hretry Hlast Hle Hfuel;
    (destruct fuel as [|fuel]; [lia|]); rewrite attempt_loop_unfold;
    destruct (Z.leb_spec attempt maxRetries); try lia.
  - rewrite Nat.add_0_r in *.
    destruct Hlast as [Hop|(e & Hop & Hcl)]; rewrite Hop; [|rewrite Hcl; cbn [negb]];
      (eexists; split; [reflexivity|]);
      rewrite attempts_logged, completed_waits_logged, selects_logged;
      repeat split.
  - destruct (Hretry 0%nat) as (e & Hop & Hcl & Hctx); [lia|].
    rewrite Nat.add_0_r in Hop, Hctx. rewrite Hop, Hcl. cbn [negb].
    destruct (Z.eqb_spec attempt maxRetries); [lia|]. rewrite Hctx.
    destruct (IH fuel (S n) (attempt + 1) (increase backoff) (Some e))
      as (tr & Hrun & Hatt & Hcw & Hsel).
    + intros i Hi. replace (S n + i)%nat with (n + S i)%nat by lia.
      apply Hretry. lia.
    + replace (S n + k)%nat with (n + S k)%nat by lia. exact Hlast.
    + lia.
    + lia.
    + replace (S n + k)%nat with (n + S k)%nat in Hrun by lia. rewrite Hrun.
      eexists; split; [reflexivity|].
      rewrite attempts_logged, completed_waits_logged, selects_logged.
      cbn [attempts completed_waits selects length]. rewrite Hatt, Hcw, Hsel.
      repeat split.
Qed.

(** X3. When the first [k] calls fail with retryable errors (and the
    context is not cancelled) and call [k], with [k <= maxRetries],
    succeeds or fails with an error the classifier rejects, the result
    of call [k] is returned as it is, after exactly [k + 1] calls and [k]
    completed waits: a success or a rejected error ends the run at once,
    whatever [maxRetries] still allows. *)
Theorem retry_stops_at_first_final_result
    (E : Env) (maxRetries : Z) (initialBackoff maxBackoff : Duration) (k : nat) :
  (forall i, (i < k)%nat ->
     exists e, operation E i = Some e /\
               errorClassifier E e = true /\ ctx_done E i = false) ->
  (operation E k = None \/
   exists e, operation E k = Some e /\ errorClassifier E e = false) ->
  Z.of_nat k <= maxRetries ->
  exists tr,
    RetryWithBackoff E maxRetries initialBackoff maxBackoff
    = Some (operation E k, tr) /\
    attempts tr = S k /\
    length (completed_waits tr) = k /\
    length (selects tr) = k.
Proof.
  intros Hretry Hlast Hk. unfold RetryWithBackoff.
  apply (loop_stops_at E maxRetries maxBackoff k _ 0%nat 0 initialBackoff None);
    [exact Hretry | exact Hlast | lia | lia].
Qed.

(** A caller whose operation fails twice with a network error, then
    succeeds. *)
Lemma retry_stops_at_first_final_result_witness :
  exists tr,
    RetryWithBackoff third_time_lucky 7 (1 * Second) (10 * Second)
    = Some (None, tr) /\
    attempts tr = 3%nat /\
    length (completed_waits tr) = 2%nat /\
    length (selects tr) = 2%nat.
Proof.
  apply (retry_stops_at_first_final_result third_time_lucky
           7 (1 * Second) (10 * Second) 2).
  - intros i Hi. exists (New "connection reset by peer").
    destruct i as [|[|i]]; [repeat split..|lia].
  - left. reflexivity.
  - lia.
Defined.

(** The calls of a run are the calls [n], [n+1], ... of the operation,
    one after the other. *)
Lemma loop_calls E maxRetries maxBackoff :
  forall fuel n attempt backoff err r tr,
    attempt_loop fuel E maxRetries maxBackoff n attempt backoff err = Some (r, tr) ->
    calls tr = map (operation E) (seq n (attempts tr)).
Proof.
  induction fuel as [|fuel IH]; intros n attempt backoff err r tr Hrun;
    apply attempt_loop_inv in Hrun
      as [(_ & _ & ->)|(Hle & fuel' & rest & tr0 & Hf & -> & Hround & Hrest)];
    try discriminate; try reflexivity.
  injection Hf as <-. rewrite calls_logged, attempts_logged.
  inversion Hround as [Hop|e Hop Hcl|e Hop Hcl Heq|e Hop Hcl Hlt Hctx
                       |e r' tr' Hop Hcl Hlt Hctx]; subst;
    cbn [calls attempts seq map]; rewrite Hop; try reflexivity.
  specialize (Hrest _ eq_refl). rewrite Hop in Hrest.
  rewrite (IH _ _ _ _ _ _ Hrest). reflexivity.
Qed.

(** What a run that made a call returns: [nil] exactly when its last
    call returned [nil]. *)
Lemma loop_nil_iff E maxRetries maxBackoff :
  forall fuel n attempt backoff err r tr,
    attempt <= maxRetries ->
    attempt_loop fuel E maxRetries maxBackoff n attempt backoff err = Some (r, tr) ->
    (1 <= attempts tr)%nat /\
    (r = None <-> operation E (n + attempts tr - 1)%nat = None).
Proof.
  induction fuel as [|fuel IH]; intros n attempt backoff err r tr Hle Hrun;
    apply attempt_loop_inv in Hrun
      as [(Hgt & _)|(_ & fuel' & rest & tr0 & Hf & -> & Hround & Hrest)];
    try discriminate; try lia.
  injection Hf as <-. rewrite attempts_logged.
  inversion Hround as [Hop|e Hop Hcl|e Hop Hcl Heq|e Hop Hcl Hlt Hctx
                       |e r' tr' Hop Hcl Hlt Hctx]; subst;
    cbn [attempts].
  - replace (n + 1 - 1)%nat with n by lia. rewrite Hop. split; [lia | tauto].
  - replace (n + 1 - 1)%nat with n by lia. rewrite Hop.
    split; [lia|]. split; discriminate.
  - replace (n + 1 - 1)%nat with n by lia. rewrite Hop.
    split; [lia|]. split; discriminate.
  - replace (n + 1 - 1)%nat with n by lia. rewrite Hop.
    split; [lia|]. split; discriminate.
  - specialize (Hrest _ eq_refl).
    assert (Hle' : attempt + 1 <= maxRetries) by lia.
    destruct (IH _ _ _ _ _ _ Hle' Hrest) as (Hpos & Hiff).
    split; [lia|].
    replace (n + S (attempts tr') - 1)%nat with (S n + attempts tr' - 1)%nat by lia.
    exact Hiff.
Qed.

(** X4. With [maxRetries >= 0] the operation is called at least once,
    the calls made are the first calls of the operation in order, and
    the run returns [nil] exactly when the last call it made returned
    [nil]: no error is swallowed and no success is turned into an
    error. *)
Theorem retry_returns_nil_iff_last_call_succeeded
    (E : Env) (maxRetries : Z) (initialBackoff maxBackoff : Duration) :
  0 <= maxRetries ->
  exists r tr,
    RetryWithBackoff E maxRetries initialBackoff maxBackoff = Some (r, tr) /\
    (1 <= attempts tr)%nat /\
    calls tr = map (operation E) (seq 0 (attempts tr)) /\
    (r = None <-> operation E (attempts tr - 1)%nat = None).
Proof.
  intros Hmr.
  destruct (RetryWithBackoff_total E maxRetries initialBackoff maxBackoff)
    as (r & tr & Hrun).
  exists r, tr. split; [exact Hrun|].
  destruct (loop_nil_iff _ _ _ _ _ _ _ _ _ _ Hmr Hrun) as (Hpos & Hiff).
  split; [exact Hpos|]. split; [exact (loop_calls _ _ _ _ _ _ _ _ _ _ Hrun)|].
  exact Hiff.
Qed.

Lemma retry_returns_nil_iff_last_call_succeeded_witness :
  exists r tr,
    RetryWithBackoff third_time_lucky 7 (1 * Second) (10 * Second) = Some (r, tr) /\
    (1 <= attempts tr)%nat /\
    calls tr = map (operation third_time_lucky) (seq 0 (attempts tr)) /\
    (r = None <-> operation third_time_lucky (attempts tr - 1)%nat = None).
Proof.
  apply (retry_returns_nil_iff_last_call_succeeded third_time_lucky
           7 (1 * Second) (10 * Second)).
  lia.
Defined.

(** The delays play no part in what a run does apart from the waits. *)
Lemma loop_ignores_delays E draws maxRetries maxBackoff maxBackoff' :
  forall fuel n attempt backoff backoff' err r tr,
    attempt_loop fuel E maxRetries maxBackoff n attempt backoff err = Some (r, tr) ->
    exists tr',
      attempt_loop fuel (with_draws E draws) maxRetries maxBackoff'
        n attempt backoff' err = Some (r, tr') /\
      calls tr' = calls tr /\
      cancellations tr' = cancellations tr.
Proof.
  unfold cancellations.
  induction fuel as [|fuel IH]; intros n attempt backoff backoff' err r tr Hrun.
  - cbn [attempt_loop] in *.
    destruct (attempt <=? maxRetries); [discriminate|].
    injection Hrun as <- <-. eexists; repeat split.
  - rewrite attempt_loop_unfold in *. cbn [with_draws operation errorClassifier ctx_done].
    destruct (attempt <=? maxRetries);
      [|injection Hrun as <- <-; eexists; repeat split].
    destruct (operation E n) as [e|];
      [|injection Hrun as <- <-; eexists; split; [reflexivity|];
        rewrite !calls_logged, !selects_logged; split; reflexivity].
    destruct (negb (errorClassifier E e));
      [injection Hrun as <- <-; eexists; split; [reflexivity|];
       rewrite !calls_logged, !selects_logged; split; reflexivity|].
    destruct (attempt =? maxRetries);
      [injection Hrun as <- <-; eexists; split; [reflexivity|];
       rewrite !calls_logged, !selects_logged; split; reflexivity|].
    cbn zeta in *.
    destruct (ctx_done E n);
      [injection Hrun as <- <-; eexists; split; [reflexivity|];
       rewrite !calls_logged, !selects_logged; split; reflexivity|].
    destruct (attempt_loop fuel E maxRetries maxBackoff (S n) (attempt + 1)
                (increase backoff) (Some e)) as [[r0 tr0]|] eqn:Hrec; [|discriminate].
    injection Hrun as <- <-.
    destruct (IH _ _ _ (increase backoff') _ _ _ Hrec) as (tr' & Hrun' & Hc & Hs).
    rewrite Hrun'. eexists; split; [reflexivity|].
    rewrite !calls_logged, !selects_logged. cbn [calls selects map].
    rewrite Hc, Hs. split; reflexivity.
Qed.

(** X5. When the context is never cancelled, the jitter and the two
    delay bounds change nothing but the lengths of the waits: with other
    draws of the random source and other values of [initialBackoff] and
    [maxBackoff], the same calls are made with the same results, as many
    waits are made, all to the end, and the same value is returned. *)
Theorem retry_outcome_does_not_depend_on_delays
    (E : Env) (draws : nat -> float64) (maxRetries : Z)
    (initialBackoff maxBackoff initialBackoff' maxBackoff' : Duration) :
  (forall n, ctx_done E n = false) ->
  exists r tr tr',
    RetryWithBackoff E maxRetries initialBackoff maxBackoff = Some (r, tr) /\
    RetryWithBackoff (with_draws E draws) maxRetries initialBackoff' maxBackoff'
    = Some (r, tr') /\
    calls tr' = calls tr /\
    length (waits tr') = length (waits tr) /\
    Forall (fun c => c = false) (cancellations tr) /\
    Forall (fun c => c = false) (cancellations tr').
Proof.
  intros Hctx.
  destruct (RetryWithBackoff_total E maxRetries initialBackoff maxBackoff)
    as (r & tr & Hrun).
  destruct (loop_ignores_delays E draws maxRetries maxBackoff maxBackoff'
              _ _ _ _ initialBackoff' _ _ _ Hrun) as (tr' & Hrun' & Hc & Hs).
  exists r, tr, tr'.
  assert (Hnone : Forall (fun c => c = false) (cancellations tr)).
  { unfold cancellations. apply List.Forall_forall. intros c Hin.
    apply List.in_map_iff in Hin as (x & <- & Hin).
    apply List.In_nth_error in Hin as [i Hi].
    pose proof (selects_nth _ _ _ _ _ _ _ _ _ _ _ _ Hrun Hi) as Hx.
    cbn zeta in Hx. rewrite Hx. cbn. apply Hctx. }
  split; [exact Hrun|]. split; [exact Hrun'|]. split; [exact Hc|].
  split; [|split; [exact Hnone | rewrite Hs; exact Hnone]].
  unfold waits. unfold cancellations in Hs.
  rewrite !length_map. rewrite <- (length_map (fun x => x.2) (selects tr')), Hs.
  apply length_map.
Qed.

Lemma retry_outcome_does_not_depend_on_delays_witness :
  exists r tr tr',
    RetryWithBackoff half_jitter_caller 4 (1 * Second) (10 * Second) = Some (r, tr) /\
    RetryWithBackoff (with_draws half_jitter_caller (fun _ => 9 # 10))
      4 (5 * Second) (1 * Minute) = Some (r, tr') /\
    calls tr' = calls tr /\
    length (waits tr') = length (waits tr) /\
    Forall (fun c => c = false) (cancellations tr) /\
    Forall (fun c => c = false) (cancellations tr').
Proof.
  apply (retry_outcome_does_not_depend_on_delays half_jitter_caller
           (fun _ => 9 # 10) 4 (1 * Second) (10 * Second) (5 * Second) (1 * Minute)).
  intros n. reflexivity.
Defined.

(** With a negative [maxRetries] the loop does not run. *)
Lemma loop_skipped_when_negative E maxRetries initialBackoff maxBackoff :
  maxRetries < 0 ->
  RetryWithBackoff E maxRetries initialBackoff maxBackoff = Some (None, []).
Proof.
  intros Hneg. unfold RetryWithBackoff.
  destruct (Z.to_nat (maxRetries + 1)); cbn [attempt_loop];
    destruct (Z.leb_spec 0 maxRetries); try lia; reflexivity.
Qed.

(** *** The classifiers *)




(** *** [executeDeepseekRequest] *)

(** The calls before the last one of a run all failed with an error
    that the classifier accepted, and their waits ran to the end. *)
Lemma loop_earlier_calls_retried E maxRetries maxBackoff :
  forall fuel n attempt backoff err r tr (i : nat),
    attempt_loop fuel E maxRetries maxBackoff n attempt backoff err = Some (r, tr) ->
    (i + 1 < attempts tr)%nat ->
    exists e, operation E (n + i)%nat = Some e /\
              errorClassifier E e = true /\ ctx_done E (n + i)%nat = false.
Proof.
  induction fuel as [|fuel IH]; intros n attempt backoff err r tr i Hrun Hi;
    apply attempt_loop_inv in Hrun
      as [(_ & _ & ->)|(Hle & fuel' & rest & tr0 & Hf & -> & Hround & Hrest)];
    try discriminate; try (cbn in Hi; lia).
  injection Hf as <-. rewrite attempts_logged in Hi.
  inversion Hround as [Hop|e Hop Hcl|e Hop Hcl Heq|e Hop Hcl Hlt Hctx
                       |e r' tr' Hop Hcl Hlt Hctx]; subst;
    cbn [attempts] in Hi; try lia.
  destruct i as [|i].
  - rewrite Nat.add_0_r. exists e. repeat split; assumption.
  - specialize (Hrest _ eq_refl).
    replace (n + S i)%nat with (S n + i)%nat by lia.
    apply (IH _ _ _ _ _ _ _ Hrest). lia.
Qed.

(** X7. With a negative [MaxRetries] in the configuration,
    [executeDeepseekRequest] returns a [nil] response together with a
    [nil] error, and the API is never called. *)
Theorem executeDeepseekRequest_negative_MaxRetries
    (s : DeepseekServer) (A : ApiEnv) :
  MaxRetries (config s) < 0 ->
  executeDeepseekRequest s A = Some ((None, None), []).
Proof.
  intros Hneg. unfold executeDeepseekRequest.
  rewrite (loop_skipped_when_negative (api_operation A)
             (MaxRetries (config s)) (InitialBackoff (config s))
             (MaxBackoff (config s)) Hneg).
  reflexivity.
Qed.

Lemma executeDeepseekRequest_negative_MaxRetries_witness :
  executeDeepseekRequest negative_retries_server flaky_api = Some ((None, None), []).
Proof.
  apply (executeDeepseekRequest_negative_MaxRetries negative_retries_server flaky_api).
  reflexivity.
Defined.

(** X8. With [MaxRetries >= 0], [executeDeepseekRequest] returns either
    an error and no response, or no error and the response of the last
    API call it made; that call reported no error, and every call before
    it failed with an error [IsRetryableError] accepts. *)
Theorem executeDeepseekRequest_returns_last_response
    (s : DeepseekServer) (A : ApiEnv) :
  0 <= MaxRetries (config s) ->
  exists response err tr,
    executeDeepseekRequest s A = Some ((response, err), tr) /\
    (err <> None -> response = None) /\
    (err = None ->
     exists k : nat,
       attempts tr = S k /\
       CreateChatCompletion A k = (response, None) /\
       forall i, (i < k)%nat ->
         exists e, (CreateChatCompletion A i).2 = Some e /\
                   IsRetryableError (Some e) = true).
Proof.
  intros Hmr. unfold executeDeepseekRequest.
  destruct (RetryWithBackoff_total (api_operation A) (MaxRetries (config s))
              (InitialBackoff (config s)) (MaxBackoff (config s)))
    as (r & tr & Hrun).
  rewrite Hrun. unfold RetryWithBackoff in Hrun.
  destruct (loop_nil_iff _ _ _ _ _ _ _ _ _ _ Hmr Hrun) as (Hpos & Hiff).
  destruct r as [e|].
  - exists None, (Some e), tr. split; [reflexivity|].
    split; [reflexivity | discriminate].
  - destruct (attempts tr) as [|k] eqn:Hatt; [lia|].
    exists (CreateChatCompletion A k).1, None, tr.
    split; [reflexivity|]. split; [congruence|]. intros _.
    exists k. split; [exact Hatt|]. split.
    + destruct Hiff as [Hnil _]. specialize (Hnil eq_refl).
      replace (0 + S k - 1)%nat with k in Hnil by lia.
      cbn [api_operation operation] in Hnil.
      destruct (CreateChatCompletion A k) as [res e']. cbn in *. congruence.
    + intros i Hi.
      destruct (loop_earlier_calls_retried _ _ _ _ _ _ _ _ _ _ i Hrun)
        as (e & Hop & Hcl & _); [lia|].
      exists e. split; [exact Hop | exact Hcl].
Qed.

Lemma executeDeepseekRequest_returns_last_response_witness :
  exists response err tr,
    executeDeepseekRequest fresh_server flaky_api = Some ((response, err), tr) /\
    (err <> None -> response = None) /\
    (err = None ->
     exists k : nat,
       attempts tr = S k /\
       CreateChatCompletion flaky_api k = (response, None) /\
       forall i, (i < k)%nat ->
         exists e, (CreateChatCompletion flaky_api i).2 = Some e /\
                   IsRetryableError (Some e) = true).
Proof.
  apply (executeDeepseekRequest_returns_last_response fresh_server flaky_api).
  vm_compute. discriminate.
Defined.

(** * Further properties of the cache store *)

Lemma createCache_failure_unchanged s now1 now2 req e s' :
  createCache s now1 now2 req = (inr e, s') -> s' = s.
Proof.
  unfold createCache.
  destruct (negb (EnableCaching (config s))); [congruence|].
  destruct (String.eqb (reqModel req) ""); [congruence|].
  destruct (ValidateModelID (reqModel req)); [congruence|].
  destruct (String.eqb (reqTTL req) ""); [discriminate|].
  destruct (ParseDuration (reqTTL req)); [discriminate | congruence].
Qed.

Lemma createCache_frame s now1 now2 req info s' :
  createCache s now1 now2 req = (inl info, s') ->
  ID info = cache_id (UnixNano now1) /\
  forall id, id <> ID info -> caches s' !! id = caches s !! id.
Proof.
  intros H. apply createCache_success in H as (ttl & _ & Hinfo & ->).
  split; [rewrite Hinfo; reflexivity|].
  intros id Hne. cbn [caches set_caches]. apply lookup_insert_ne. congruence.
Qed.

(** X9. A [createCache] that fails changes nothing, and its error is one
    of four: caching disabled, model missing, model unknown (wrapping
    the error of [ValidateModelID]) or ttl not parsable (wrapping the
    error of [time.ParseDuration]). *)
Theorem createCache_failure_changes_nothing
    (s s' : DeepseekServer) (now1 now2 : Time) (req : CacheRequest) (e : error) :
  createCache s now1 now2 req = (inr e, s') ->
  s' = s /\
  ((EnableCaching (config s) = false /\ e = New "caching is disabled") \/
   (reqModel req = "" /\ e = New "model is required") \/
   (exists err, ValidateModelID (reqModel req) = Some err /\
                e = Errorf_w "invalid model: " err /\ Unwrap e = Some err) \/
   (exists err, ParseDuration (reqTTL req) = inr err /\ reqTTL req <> "" /\
                e = Errorf_w "invalid TTL format: " err /\ Unwrap e = Some err)).
Proof.
  unfold createCache.
  destruct (EnableCaching (config s)) eqn:Hen; cbn [negb].
  2: { intros H; injection H as <- <-. split; [reflexivity|]. left. split; reflexivity. }
  destruct (String.eqb_spec (reqModel req) "") as [Hm|Hm].
  { intros H; injection H as <- <-. split; [reflexivity|]. right; left.
    split; [exact Hm | reflexivity]. }
  destruct (ValidateModelID (reqModel req)) as [err|] eqn:Hv.
  { intros H; injection H as <- <-. split; [reflexivity|]. right; right; left.
    exists err. repeat split. }
  destruct (String.eqb_spec (reqTTL req) "") as [Ht|Ht]; [discriminate|].
  destruct (ParseDuration (reqTTL req)) as [ttl|err] eqn:Hp; [discriminate|].
  intros H; injection H as <- <-. split; [reflexivity|]. right; right; right.
  exists err. repeat split. exact Ht.
Qed.

Lemma createCache_failure_changes_nothing_witness :
  with_entry fresh_server
    (entry_of 1700000000000000000 1700000000000000050
       (chat_request "10m") (10 * Minute))
  = with_entry fresh_server
      (entry_of 1700000000000000000 1700000000000000050
         (chat_request "10m") (10 * Minute)).
Proof.
  apply (createCache_failure_changes_nothing
           (with_entry fresh_server
              (entry_of 1700000000000000000 1700000000000000050
                 (chat_request "10m") (10 * Minute)))
           _ 1700000000000000900 1700000000000000950 (chat_request "ten minutes")
           (Errorf_w "invalid TTL format: " (invalid_duration "ten minutes"))).
  reflexivity.
Defined.

(** X10. [createCache] succeeds exactly when caching is enabled, the
    model is one [GetModelByID] knows and the ttl is empty or parses;
    the clock readings and the table play no part in it. *)
Theorem createCache_succeeds_iff
    (s : DeepseekServer) (now1 now2 : Time) (req : CacheRequest) :
  (exists info s', createCache s now1 now2 req = (inl info, s')) <->
  (EnableCaching (config s) = true /\
   GetModelByID (reqModel req) <> None /\
   (reqTTL req = "" \/ exists ttl, ParseDuration (reqTTL req) = inl ttl)).
Proof.
  split.
  - intros (info & s' & H). unfold createCache in H.
    destruct (EnableCaching (config s)); cbn [negb] in H; [|discriminate].
    destruct (String.eqb (reqModel req) ""); [discriminate|].
    unfold ValidateModelID in H.
    destruct (GetModelByID (reqModel req)); [|discriminate].
    split; [reflexivity|]. split; [discriminate|].
    destruct (String.eqb_spec (reqTTL req) "") as [Ht|Ht]; [left; exact Ht|].
    destruct (ParseDuration (reqTTL req)) as [ttl|]; [|discriminate].
    right. exists ttl. reflexivity.
  - intros (Hen & Hmodel & Httl).
    assert (exists ttl, resolved_ttl s req = Some ttl) as [ttl Hr].
    { unfold resolved_ttl. destruct (String.eqb_spec (reqTTL req) "") as [Ht|Ht].
      - eexists; reflexivity.
      - destruct Httl as [Ht'|[ttl Hp]]; [contradiction|].
        rewrite Hp. eexists; reflexivity. }
    destruct (createCache_succeeds s now1 now2 req ttl Hen Hmodel Hr)
      as (info & Hrun & _).
    eexists; eexists; exact Hrun.
Qed.

(** X11. A successful [createCache] adds or replaces the entry of its
    own id and nothing else: every other id reads as before, the
    configuration is unchanged and the table has one more id at most. *)
Theorem createCache_touches_only_its_id
    (s s' : DeepseekServer) (now1 now2 : Time) (req : CacheRequest)
    (info : CacheInfo) :
  createCache s now1 now2 req = (inl info, s') ->
  ID info = cache_id (UnixNano now1) /\
  config s' = config s /\
  (forall id, id <> ID info -> caches s' !! id = caches s !! id) /\
  dom (caches s') = {[ ID info ]} ∪ dom (caches s) /\
  (size (caches s') <= S (size (caches s)))%nat.
Proof.
  intros H. apply createCache_success in H as (ttl & _ & Hinfo & ->).
  split; [rewrite Hinfo; reflexivity|].
  cbn [config caches set_caches].
  split; [reflexivity|]. split; [|split].
  - intros id Hne. apply lookup_insert_ne. congruence.
  - apply dom_insert_L.
  - destruct (caches s !! ID info) as [old|] eqn:Hold.
    + rewrite <- (insert_delete_id (caches s) (ID info) old Hold) at 2.
      rewrite <- insert_delete_eq.
      rewrite !map_size_insert_None by apply lookup_delete_eq. lia.
    + rewrite map_size_insert_None by exact Hold. lia.
Qed.

Lemma createCache_touches_only_its_id_witness :
  ID (entry_of 1700000000000000000 1700000000000000050
        (chat_request "10m") (10 * Minute))
  = cache_id (UnixNano 1700000000000000000).
Proof.
  apply (createCache_touches_only_its_id fresh_server
           (with_entry fresh_server
              (entry_of 1700000000000000000 1700000000000000050
                 (chat_request "10m") (10 * Minute)))
           1700000000000000000 1700000000000000050 (chat_request "10m")).
  reflexivity.
Defined.

Lemma createCache_succeeds_iff_witness :
  exists info s',
    createCache fresh_server 1700000000000000000 1700000000000000050
      (chat_request "10m") = (inl info, s').
Proof.
  apply (createCache_succeeds_iff fresh_server
           1700000000000000000 1700000000000000050 (chat_request "10m")).
  split; [reflexivity|]. split; [vm_compute; discriminate|].
  right. eexists. reflexivity.
Defined.

(** [getCache] answers in one of three ways. It returns the stored
    entry, which is then not expired at the reading taken, and changes
    nothing; or it fails with "cache not found" for an id the table does
    not have, and changes nothing; or it fails with "cache has expired"
    for a stored entry whose [ExpiresAt] is before the reading, and
    deletes that entry. *)
Lemma getCache_cases
    (s : DeepseekServer) (now : Time) (id : string) :
  (exists info,
      caches s !! id = Some info /\ now <= ExpiresAt info /\
      getCache s now id = (inl info, s)) \/
  (caches s !! id = None /\
   getCache s now id = (inr (Errorf_s "cache not found: " id), s)) \/
  (exists info,
      caches s !! id = Some info /\ ExpiresAt info < now /\
      getCache s now id
      = (inr (New "cache has expired"), set_caches s (delete id (caches s)))).
Proof.
  unfold getCache, After.
  destruct (caches s !! id) as [info|] eqn:Hin.
  - destruct (Z.ltb_spec (ExpiresAt info) now).
    + right; right. exists info. repeat split; assumption.
    + left. exists info. repeat split; assumption.
  - right; left. split; reflexivity.
Qed.

Lemma getCache_frame
    (s : DeepseekServer) (now : Time) (id : string) :
  config (getCache s now id).2 = config s /\
  (forall id', id' <> id ->
     caches (getCache s now id).2 !! id' = caches s !! id') /\
  (caches (getCache s now id).2 !! id = caches s !! id \/
   caches (getCache s now id).2 !! id = None) /\
  caches (getCache s now id).2 ⊆ caches s.
Proof.
  destruct (getCache_cases s now id)
    as [(info & _ & _ & ->)|[(_ & ->)|(info & _ & _ & ->)]];
    cbn [snd config caches set_caches].
  - repeat split; auto.
  - repeat split; auto.
  - split; [reflexivity|]. split; [|split].
    + intros id' Hne. apply lookup_delete_ne. congruence.
    + right. apply lookup_delete_eq.
    + apply delete_subseteq.
Qed.

(** X12. [getCache] never adds or changes an entry: every id other than
    the one asked for reads as before, the id asked for reads as before
    or is gone, and the configuration is unchanged. *)
Theorem getCache_only_removes
    (s : DeepseekServer) (now : Time) (id : string) :
  config (getCache s now id).2 = config s /\
  (forall id', id' <> id ->
     caches (getCache s now id).2 !! id' = caches s !! id') /\
  (caches (getCache s now id).2 !! id = caches s !! id \/
   caches (getCache s now id).2 !! id = None) /\
  caches (getCache s now id).2 ⊆ caches s.
Proof.
  destruct (getCache_cases s now id)
    as [(info & _ & _ & ->)|[(_ & ->)|(info & _ & _ & ->)]];
    cbn [snd config caches set_caches].
  - repeat split; auto.
  - repeat split; auto.
  - split; [reflexivity|]. split; [|split].
    + intros id' Hne. apply lookup_delete_ne. congruence.
    + right. apply lookup_delete_eq.
    + apply delete_subseteq.
Qed.

(** *** Sequences of calls *)

Lemma apply_op_table_ok s op :
  table_ok s -> table_ok (apply_op s op).2.
Proof.
  intros Hok. destruct op as [now1 now2 req|now id]; cbn [apply_op].
  - destruct (createCache s now1 now2 req) as [[info|e] s'] eqn:Hc; cbn [snd].
    + pose proof Hc as Hsucc.
      apply createCache_success in Hc as (ttl & _ & Hinfo & ->).
      intros id' info' Hl. cbn [caches set_caches] in Hl.
      destruct (decide (ID info = id')) as [<-|Hne].
      * rewrite lookup_insert_eq in Hl. injection Hl as <-.
        split; [reflexivity|].
        unfold createCache in Hsucc.
        destruct (negb (EnableCaching (config s))); [discriminate|].
        destruct (String.eqb (reqModel req) ""); [discriminate|].
        destruct (ValidateModelID (reqModel req)) eqn:Hv; [discriminate|].
        rewrite Hinfo. exact Hv.
      * rewrite lookup_insert_ne in Hl by exact Hne. exact (Hok _ _ Hl).
    + apply createCache_failure_unchanged in Hc as ->. exact Hok.
  - intros id' info' Hl.
    destruct (getCache_frame s now id) as (_ & _ & _ & Hsub).
    apply Hok. exact (lookup_weaken _ _ _ _ Hl Hsub).
Qed.

Lemma run_ops_table_ok ops : forall s, table_ok s -> table_ok (run_ops s ops).2.
Proof.
  induction ops as [|op ops IH]; intros s Hok; [exact Hok|].
  cbn [run_ops].
  pose proof (apply_op_table_ok s op Hok) as Hok1.
  destruct (apply_op s op) as [r s1]. cbn [snd] in Hok1.
  specialize (IH s1 Hok1). destruct (run_ops s1 ops) as [rs s2]. exact IH.
Qed.

(** X13. Starting from a table whose entries sit under their own ids
    with valid models (the empty table of a new server is one), every
    sequence of [createCache] and [getCache] calls keeps it so; hence an
    entry [getCache] returns afterwards carries the id that was asked
    for and a model that [ValidateModelID] accepts. *)
Theorem cache_table_stays_consistent
    (s : DeepseekServer) (ops : list CacheOp) (now : Time) (id : string)
    (info : CacheInfo) :
  table_ok s ->
  table_ok (run_ops s ops).2 /\
  ((getCache (run_ops s ops).2 now id).1 = inl info ->
   ID info = id /\ ValidateModelID (Model info) = None).
Proof.
  intros Hok. pose proof (run_ops_table_ok ops s Hok) as Hok'.
  split; [exact Hok'|].
  intros Hget.
  destruct (getCache_cases (run_ops s ops).2 now id)
    as [(info' & Hl & _ & Hg)|[(_ & Hg)|(info' & _ & _ & Hg)]];
    rewrite Hg in Hget; cbn [fst] in Hget; try discriminate.
  injection Hget as ->. exact (Hok' _ _ Hl).
Qed.

Lemma empty_table_ok : table_ok fresh_server.
Proof. intros id info H. cbn in H. rewrite lookup_empty in H. discriminate. Qed.

Lemma cache_table_stays_consistent_witness :
  ID (entry_of 1700000000000000000 1700000000000000050
        (chat_request "10m") (10 * Minute)) = "cache-1700000000000000000" /\
  ValidateModelID
    (Model (entry_of 1700000000000000000 1700000000000000050
              (chat_request "10m") (10 * Minute))) = None.
Proof.
  apply (cache_table_stays_consistent fresh_server
           [OpCreate 1700000000000000000 1700000000000000050 (chat_request "10m");
            OpGet 1700000000000000060 "cache-0"]
           1700000000000000070 "cache-1700000000000000000").
  - exact empty_table_ok.
  - vm_compute. reflexivity.
Defined.

Lemma apply_op_untouched s op id :
  touches id op = false -> caches (apply_op s op).2 !! id = caches s !! id.
Proof.
  destruct op as [now1 now2 req|now id']; cbn [apply_op touches]; intros Ht.
  - destruct (createCache s now1 now2 req) as [[info|e] s'] eqn:Hc; cbn [snd].
    + destruct (createCache_frame _ _ _ _ _ _ Hc) as (Hid & Hframe).
      apply Hframe. rewrite Hid. intros ->.
      rewrite String.eqb_refl in Ht. discriminate.
    + apply createCache_failure_unchanged in Hc as ->. reflexivity.
  - destruct (getCache_frame s now id') as (_ & Hframe & _).
    apply Hframe. intros ->. rewrite String.eqb_refl in Ht. discriminate.
Qed.

(** X14. Nothing sweeps the table. An entry stays in it, expired or
    not, through every sequence of calls that contains neither a
    [getCache] of its id nor a [createCache] that builds the same id. *)
Theorem cache_entry_lingers_until_read
    (s : DeepseekServer) (ops : list CacheOp) (id : string) (info : CacheInfo) :
  caches s !! id = Some info ->
  forallb (fun op => negb (touches id op)) ops = true ->
  caches (run_ops s ops).2 !! id = Some info.
Proof.
  revert s. induction ops as [|op ops IH]; intros s Hin Hops; [exact Hin|].
  cbn [forallb] in Hops. apply andb_true_iff in Hops as [Hop Hops].
  apply negb_true_iff in Hop.
  cbn [run_ops].
  pose proof (apply_op_untouched s op id Hop) as Hsame.
  destruct (apply_op s op) as [r s1]. cbn [snd] in Hsame.
  rewrite <- Hsame in Hin. specialize (IH s1 Hin Hops).
  destruct (run_ops s1 ops) as [rs s2]. exact IH.
Qed.

Lemma cache_entry_lingers_until_read_witness :
  caches
    (run_ops
       (with_entry fresh_server
          (entry_of 1700000000000000000 1700000000000000050
             (chat_request "1ns") (1 * Nanosecond)))
       [OpGet 1800000000000000000 "cache-1700000000000000001";
        OpCreate 1800000000000000001 1800000000000000002 (coder_request "")]).2
    !! "cache-1700000000000000000"
  = Some (entry_of 1700000000000000000 1700000000000000050
            (chat_request "1ns") (1 * Nanosecond)).
Proof.
  apply (cache_entry_lingers_until_read
           (with_entry fresh_server
              (entry_of 1700000000000000000 1700000000000000050
                 (chat_request "1ns") (1 * Nanosecond)))
           [OpGet 1800000000000000000 "cache-1700000000000000001";
            OpCreate 1800000000000000001 1800000000000000002 (coder_request "")]
           "cache-1700000000000000000").
  - vm_compute. reflexivity.
  - vm_compute. reflexivity.
Defined.

(** * Properties of the model registry *)

Lemma find_model_Some modelID models info :
  find_model modelID models = Some info ->
  ModelID info = modelID /\ In info models.
Proof.
  induction models as [|m rest IH]; [discriminate|].
  cbn [find_model]. destruct (String.eqb_spec (ModelID m) modelID) as [Heq|Hne].
  - intros H; injection H as <-. split; [exact Heq | left; reflexivity].
  - intros H. destruct (IH H) as [Hid Hin]. split; [exact Hid | right; exact Hin].
Qed.

Lemma find_model_None modelID models :
  find_model modelID models = None <-> ~ In modelID (map ModelID models).
Proof.
  induction models as [|m rest IH]; [cbn; tauto|].
  cbn [find_model map In].
  destruct (String.eqb_spec (ModelID m) modelID) as [Heq|Hne].
  - split; [discriminate | tauto].
  - rewrite IH. tauto.
Qed.

(** X15. [ValidateModelID] returns [nil] exactly for the ids of the
    models [GetAvailableDeepseekModels] lists; [GetModelByID] returns a
    listed model with the id asked for; for every other id, the empty
    one included, the error text starts with that id and names every
    available model. *)
Theorem ValidateModelID_accepts_listed_ids (modelID : string) :
  (ValidateModelID modelID = None <->
   In modelID (map ModelID GetAvailableDeepseekModels)) /\
  (forall info, GetModelByID modelID = Some info ->
     ModelID info = modelID /\ In info GetAvailableDeepseekModels) /\
  (~ In modelID (map ModelID GetAvailableDeepseekModels) ->
   exists text,
     ValidateModelID modelID
     = Some (New ("Invalid model ID: " +:+ modelID +:+ text)) /\
     forall m, In m GetAvailableDeepseekModels ->
       Contains text (ModelID m +:+ ": " +:+ ModelName m) = true) /\
  ValidateModelID "" <> None.
Proof.
  split; [|split; [|split]].
  - unfold ValidateModelID, GetModelByID.
    destruct (find_model modelID GetAvailableDeepseekModels) as [info|] eqn:Hf.
    + split; [intros _|reflexivity].
      apply find_model_Some in Hf as [<- Hin]. apply in_map. exact Hin.
    + split; [discriminate|]. intros Hin.
      apply find_model_None in Hf. contradiction.
  - intros info. apply find_model_Some.
  - intros Hnot. unfold ValidateModelID, GetModelByID.
    apply find_model_None in Hnot. rewrite Hnot.
    exists (". Available models are:" +:+ model_lines GetAvailableDeepseekModels).
    split; [reflexivity|].
    intros m [<-|[<-|[<-|[]]]]; vm_compute; reflexivity.
  - vm_compute. discriminate.
Qed.

Lemma ValidateModelID_accepts_listed_ids_witness :
  exists text,
    ValidateModelID "gpt-4"
    = Some (New ("Invalid model ID: " +:+ "gpt-4" +:+ text)) /\
    forall m, In m GetAvailableDeepseekModels ->
      Contains text (ModelID m +:+ ": " +:+ ModelName m) = true.
Proof.
  apply (ValidateModelID_accepts_listed_ids "gpt-4").
  vm_compute. intros [H|[H|[H|[]]]]; discriminate H.
Defined.

(** * What the retry log lines say *)

Lemma retry_logs_logged attempt maxRetries backoff tr :
  retry_logs (logged attempt maxRetries backoff tr) = retry_logs tr.
Proof. unfold logged. destruct (0 <? attempt); reflexivity. Qed.

(** A round that is not the first starts with its log line. *)
Lemma loop_starts_with_log E maxRetries maxBackoff :
  forall fuel n attempt backoff err r tr,
    0 < attempt <= maxRetries ->
    attempt_loop fuel E maxRetries maxBackoff n attempt backoff err = Some (r, tr) ->
    exists tr0, tr = LogInfo attempt maxRetries backoff :: tr0.
Proof.
  intros fuel n attempt backoff err r tr Ha Hrun.
  apply attempt_loop_inv in Hrun
    as [(Hgt & _)|(_ & fuel' & rest & tr0 & _ & -> & _ & _)]; [lia|].
  unfold logged. destruct (Z.ltb_spec 0 attempt); [|lia].
  exists tr0. reflexivity.
Qed.

Lemma loop_retry_logs E maxRetries maxBackoff :
  forall fuel n attempt backoff err r tr,
    0 <= attempt ->
    attempt_loop fuel E maxRetries maxBackoff n attempt backoff err = Some (r, tr) ->
    length (retry_logs tr) = length (completed_waits tr) /\
    forall b w a m b',
      In (b, w, a, m, b') (retry_logs tr) ->
      b = Nat.iter (Z.to_nat (a - attempt - 1)) increase backoff /\
      b' = increase b /\ m = maxRetries /\ attempt < a <= maxRetries /\
      w = nextBackoff b
            (randomJitter (Float64 E (n + Z.to_nat (a - attempt - 1))%nat) b)
            maxBackoff.
Proof.
  induction fuel as [|fuel IH]; intros n attempt backoff err r tr Ha Hrun;
    apply attempt_loop_inv in Hrun
      as [(_ & _ & ->)|(Hle & fuel' & rest & tr0 & Hf & -> & Hround & Hrest)];
    try discriminate;
    try (split; [reflexivity|]; intros ? ? ? ? ? []).
  injection Hf as <-. rewrite retry_logs_logged, completed_waits_logged.
  inversion Hround as [Hop|e Hop Hcl|e Hop Hcl Heq|e Hop Hcl Hlt Hctx
                       |e r' tr' Hop Hcl Hlt Hctx]; subst;
    try (split; [reflexivity|]; intros ? ? ? ? ? []).
  specialize (Hrest _ eq_refl).
  assert (Ha1 : 0 < attempt + 1 <= maxRetries) by lia.
  assert (Ha2 : 0 <= attempt + 1) by lia.
  destruct (loop_starts_with_log _ _ _ _ _ _ _ _ _ _ Ha1 Hrest) as [tr1 ->].
  destruct (IH _ _ _ _ _ _ Ha2 Hrest) as (Hlen & Hall).
  cbn [retry_logs completed_waits length] in *.
  split; [rewrite Hlen; reflexivity|].
  intros b w a m b' [Heq|Hin].
  - injection Heq as <- <- <- <- <-.
    replace (attempt + 1 - attempt - 1) with 0 by lia.
    change (Z.to_nat 0) with 0%nat. rewrite Nat.add_0_r.
    split; [reflexivity|]. split; [reflexivity|]. split; [reflexivity|].
    split; [lia | reflexivity].
  - destruct (Hall _ _ _ _ _ Hin) as (H0 & H1 & H2 & H3 & H4).
    replace (Z.to_nat (a - attempt - 1))
      with (S (Z.to_nat (a - (attempt + 1) - 1))) by lia.
    split; [rewrite Nat.iter_succ_r; exact H0|].
    split; [exact H1|]. split; [exact H2|]. split; [lia|].
    rewrite H4. do 3 f_equal. lia.
Qed.

(** X16. Every completed wait is followed by one retry log line, and
    the delay that line prints is not the wait that just ended but the
    backoff already doubled for the next round. For a start delay
    between 1 and [2^53] nanoseconds and draws between 0 and 1, the line
    of attempt [a] comes after a wait of base [initialBackoff * 2^(a-1)]
    and, as long as [initialBackoff * 2^a] fits an [int64], prints
    [initialBackoff * 2^a], twice that base and more than the wait
    was. *)
Theorem retry_log_prints_the_increased_delay
    (E : Env) (maxRetries : Z) (initialBackoff maxBackoff : Duration) :
  0 < initialBackoff <= 2 ^ 53 ->
  (forall k, (0 <= Float64 E k)%Q /\ (Float64 E k < 1)%Q) ->
  exists r tr,
    RetryWithBackoff E maxRetries initialBackoff maxBackoff = Some (r, tr) /\
    length (retry_logs tr) = length (completed_waits tr) /\
    forall b w a m b',
      In (b, w, a, m, b') (retry_logs tr) ->
      m = maxRetries /\ 0 < a <= maxRetries /\
      (initialBackoff * 2 ^ a <= maxInt64 ->
       b = initialBackoff * 2 ^ (a - 1) /\
       b' = initialBackoff * 2 ^ a /\ b' = 2 * b /\ w < b').
Proof.
  intros [Hpos _] Hdraw.
  destruct (RetryWithBackoff_total E maxRetries initialBackoff maxBackoff)
    as (r & tr & Hrun).
  exists r, tr. split; [exact Hrun|].
  destruct (loop_retry_logs _ _ _ _ _ _ _ _ _ _ (Z.le_refl 0) Hrun) as (Hlen & Hall).
  split; [exact Hlen|].
  intros b w a m b' Hin.
  destruct (Hall _ _ _ _ _ Hin) as (H0 & H1 & H2 & H3 & H4).
  split; [exact H2|]. split; [exact H3|].
  intros Hfit.
  assert (Hpow : 2 ^ a = 2 * 2 ^ (a - 1)).
  { replace a with (a - 1 + 1) at 1 by lia.
    rewrite Z.pow_add_r, Z.pow_1_r by lia. lia. }
  assert (Hp : 0 < 2 ^ (a - 1)) by (apply Z.pow_pos_nonneg; lia).
  assert (Hb : b = initialBackoff * 2 ^ (a - 1)).
  { rewrite H0. replace (a - 0 - 1) with (a - 1) by lia.
    rewrite iter_increase_exact by (rewrite ?Z2Nat.id by lia; nia).
    rewrite Z2Nat.id by lia. reflexivity. }
  assert (Hr : in_int64 (2 * b) = true).
  { unfold in_int64, minInt64, maxInt64 in *.
    rewrite andb_true_iff, !Z.leb_le. nia. }
  assert (Hb' : b' = 2 * b) by (rewrite H1; apply increase_exact, Hr).
  split; [exact Hb|]. split; [rewrite Hb'; nia|]. split; [exact Hb'|].
  rewrite Hb'.
  set (k := (0 + Z.to_nat (a - 0 - 1))%nat) in H4.
  destruct (Hdraw k) as [Hu0 Hu1].
  assert (Hrange : 0 <= b <= maxInt64) by (unfold maxInt64 in *; nia).
  destruct (randomJitter_bounds (Float64 E k) b Hu0 Hu1 Hrange) as [Hj0 Hj1].
  rewrite H4, nextBackoff_min.
  - nia.
  - unfold in_int64, minInt64, maxInt64 in *.
    rewrite andb_true_iff, !Z.leb_le. nia.
Qed.

Lemma retry_log_prints_the_increased_delay_witness :
  exists r tr,
    RetryWithBackoff half_jitter_caller 4 (1 * Second) (10 * Second) = Some (r, tr) /\
    length (retry_logs tr) = length (completed_waits tr) /\
    forall b w a m b',
      In (b, w, a, m, b') (retry_logs tr) ->
      m = 4 /\ 0 < a <= 4 /\
      (1 * Second * 2 ^ a <= maxInt64 ->
       b = 1 * Second * 2 ^ (a - 1) /\
       b' = 1 * Second * 2 ^ a /\ b' = 2 * b /\ w < b').
Proof.
  apply (retry_log_prints_the_increased_delay half_jitter_caller
           4 (1 * Second) (10 * Second)).
  - split; [reflexivity | vm_compute; discriminate].
  - intros k. split; vm_compute; [discriminate | reflexivity].
Defined.

Example retry_logs_of_run :
  (let tr := match RetryWithBackoff half_jitter_caller 4 (1 * Second) (10 * Second)
             with Some (_, tr) => tr | None => [] end in
   retry_logs tr)
  = [(1000000000, 1050000000, 1, 4, 2000000000);
     (2000000000, 2100000000, 2, 4, 4000000000);
     (4000000000, 4200000000, 3, 4, 8000000000);
     (8000000000, 8400000000, 4, 4, 16000000000)].
Proof. vm_compute. reflexivity. Qed.

(** * Properties of the server's model registry and of the size helpers *)

Example humanReadableSize_examples :
  map humanReadableSize [0; 1023; 1024; 1536; 1280; 10 * 1024 * 1024; 1048575; -5]
  = ["0 B"; "1023 B"; "1.0 KB"; "1.5 KB"; "1.2 KB"; "10.0 MB"; "1024.0 KB"; "-5 B"].
Proof. vm_compute. reflexivity. Qed.

Lemma wrap64_add_l a b : wrap64 (wrap64 a + b) = wrap64 (a + b).
Proof.
  unfold wrap64.
  replace ((a + 2 ^ 63) mod 2 ^ 64 - 2 ^ 63 + b + 2 ^ 63)
    with ((a + 2 ^ 63) mod 2 ^ 64 + b) by lia.
  rewrite Zplus_mod_idemp_l. f_equal. f_equal. lia.
Qed.

Lemma wrap64_idem a : wrap64 (wrap64 a) = wrap64 a.
Proof.
  pose proof (wrap64_add_l a 0) as H. rewrite !Z.add_0_r in H. exact H.
Qed.

Lemma sumSizes_from_wrap sizes :
  forall total, wrap64 total = total ->
    sumSizes_from total sizes = wrap64 (total + foldr Z.add 0 sizes).
Proof.
  induction sizes as [|size rest IH]; intros total Ht; cbn [sumSizes_from foldr].
  - rewrite Z.add_0_r. symmetry. exact Ht.
  - rewrite IH by apply wrap64_idem.
    rewrite wrap64_add_l. f_equal. lia.
Qed.

Lemma foldr_add_Permutation (l l' : list Z) :
  Permutation l l' -> foldr Z.add 0 l = foldr Z.add 0 l'.
Proof.
  induction 1 as [|x l l' _ IH|x y l|l l' l'' _ IH1 _ IH2]; cbn [foldr]; lia.
Qed.

(** X17. [sumSizes] returns the exact sum of the sizes reduced to an
    [int64]: it is the exact sum whenever that fits (as for the lengths
    of the files read), and it does not depend on the order of the
    sizes. *)
Theorem sumSizes_is_the_wrapped_sum (sizes : list Z) :
  sumSizes sizes = wrap64 (foldr Z.add 0 sizes) /\
  (in_int64 (foldr Z.add 0 sizes) = true -> sumSizes sizes = foldr Z.add 0 sizes) /\
  (forall sizes', Permutation sizes sizes' -> sumSizes sizes' = sumSizes sizes).
Proof.
  assert (H : forall l, sumSizes l = wrap64 (foldr Z.add 0 l)).
  { intros l. unfold sumSizes. rewrite sumSizes_from_wrap by reflexivity.
    reflexivity. }
  split; [apply H|]. split.
  - intros Hr. rewrite H. apply wrap64_id, Hr.
  - intros sizes' Hp. rewrite !H, (foldr_add_Permutation _ _ Hp). reflexivity.
Qed.

Lemma sumSizes_is_the_wrapped_sum_witness :
  sumSizes [1536; 0; 10485760] = foldr Z.add 0 [1536; 0; 10485760].
Proof.
  apply (sumSizes_is_the_wrapped_sum [1536; 0; 10485760]).
  reflexivity.
Defined.

Lemma size_scale_spec bytes :
  forall fuel n div (exp : nat),
    0 < div -> div = 1024 ^ Z.of_nat (exp + 1) ->
    div <= bytes <= maxInt64 ->
    n = bytes / div ->
    n < 2 ^ Z.of_nat (fuel + 1) ->
    exists div' exp',
      size_scale fuel n div exp = (div', exp') /\
      div' = 1024 ^ Z.of_nat (exp' + 1) /\
      div' <= bytes < 1024 * div'.
Proof.
  induction fuel as [|fuel IH]; intros n div exp Hpos Hdiv Hb Hn Hfuel;
    cbn [size_scale]; unfold size_unit;
    destruct (Z.leb_spec 1024 n) as [Hge|Hlt].
  - change (2 ^ Z.of_nat (0 + 1)) with 2 in Hfuel. lia.
  - exists div, exp. split; [reflexivity|]. split; [exact Hdiv|].
    split; [lia|]. subst n.
    pose proof (Z.div_mod bytes div) as Hdm.
    pose proof (Z.mod_pos_bound bytes div Hpos) as Hmod. nia.
  - assert (Hbig : 1024 * div <= bytes).
    { subst n. pose proof (Z.mul_div_le bytes div Hpos). nia. }
    assert (Hw : wrap64 (div * 1024) = div * 1024).
    { apply wrap64_id. unfold in_int64, minInt64, maxInt64 in *.
      rewrite andb_true_iff, !Z.leb_le. lia. }
    rewrite Hw, Z.quot_div_nonneg by lia.
    apply IH.
    + lia.
    + rewrite Hdiv. replace (Z.of_nat (S exp + 1)) with (Z.of_nat (exp + 1) + 1) by lia.
      rewrite Z.pow_add_r, Z.pow_1_r by lia. reflexivity.
    + lia.
    + subst n. rewrite Z.div_div by lia. reflexivity.
    + replace (Z.of_nat (S fuel + 1)) with (Z.of_nat (fuel + 1) + 1) in Hfuel by lia.
      rewrite Z.pow_add_r, Z.pow_1_r in Hfuel by lia.
      apply Z.div_lt_upper_bound; lia.
  - exists div, exp. split; [reflexivity|]. split; [exact Hdiv|].
    split; [lia|]. subst n.
    pose proof (Z.div_mod bytes div) as Hdm.
    pose proof (Z.mod_pos_bound bytes div Hpos) as Hmod. nia.
Qed.

(** X18. For every size from 1024 bytes up to the largest [int64], the
    loop of [humanReadableSize] ends with [div = 1024^(exp+1)],
    [div <= bytes < 1024 * div] and [exp <= 5]: the number printed is
    [bytes / div], at least 1 and below 1024 before rounding, and the
    index into ["KMGTPE"] is always in range. Below 1024, negative sizes
    included, the size is printed as it is, in bytes. *)
Theorem humanReadableSize_scale_in_range (bytes : Z) :
  (bytes < 1024 -> humanReadableSize bytes = pretty bytes +:+ " B") /\
  (1024 <= bytes <= maxInt64 ->
   exists div (exp : nat),
     humanReadableSize_scale bytes = (div, exp) /\
     div = 1024 ^ Z.of_nat (exp + 1) /\
     div <= bytes < 1024 * div /\
     (exp <= 5)%nat /\
     String.length (String.substring exp 1 "KMGTPE") = 1%nat).
Proof.
  split.
  - intros Hlt. unfold humanReadableSize, size_unit.
    destruct (Z.ltb_spec bytes 1024); [reflexivity | lia].
  - intros [Hlo Hhi]. unfold humanReadableSize_scale, size_unit.
    rewrite Z.quot_div_nonneg by lia.
    assert (Hn : 0 < bytes / 1024) by (apply Z.div_str_pos; lia).
    destruct (size_scale_spec bytes (Z.to_nat (Z.log2 (bytes / 1024)))
                (bytes / 1024) 1024 0) as (div & exp & Hrun & Hdiv & Hbr);
      [lia | reflexivity | lia | reflexivity | |].
    { replace (Z.of_nat (Z.to_nat (Z.log2 (bytes / 1024)) + 1))
        with (Z.succ (Z.log2 (bytes / 1024)))
        by (pose proof (Z.log2_nonneg (bytes / 1024)); lia).
      apply Z.log2_spec. exact Hn. }
    exists div, exp. split; [exact Hrun|]. split; [exact Hdiv|].
    split; [exact Hbr|].
    assert (Hexp : (exp <= 5)%nat).
    { destruct (le_lt_dec exp 5) as [Hle|Hgt]; [exact Hle|exfalso].
      assert (1024 ^ 7 <= 1024 ^ Z.of_nat (exp + 1))
        by (apply Z.pow_le_mono_r; lia).
      unfold maxInt64 in Hhi. rewrite <- Hdiv in *.
      assert (1024 ^ 7 = 2 ^ 70) by reflexivity. 
      assert (2 ^ 63 < 2 ^ 70) by reflexivity. lia. }
    split; [exact Hexp|].
    do 6 (destruct exp as [|exp]; [reflexivity|]). lia.
Qed.

Lemma humanReadableSize_scale_in_range_witness :
  exists div (exp : nat),
    humanReadableSize_scale (10 * 1024 * 1024) = (div, exp) /\
    div = 1024 ^ Z.of_nat (exp + 1) /\
    div <= 10 * 1024 * 1024 < 1024 * div /\
    (exp <= 5)%nat /\
    String.length (String.substring exp 1 "KMGTPE") = 1%nat.
Proof.
  apply (humanReadableSize_scale_in_range (10 * 1024 * 1024)).
  split; [lia | vm_compute; discriminate].
Defined.

(** X19. The registry of a server validates against the models it
    discovered and only falls back to the built-in list when it
    discovered none: with an empty [s.models] it agrees with the
    package-level [ValidateModelID]; otherwise it accepts exactly the
    discovered ids, so a built-in id that was not discovered is
    rejected; the model returned for an id is a listed one with that
    id. *)
Theorem Server_ValidateModelID_uses_discovered_models
    (models : list DeepseekModelInfo) (modelID : string) :
  Server_ValidateModelID [] modelID = ValidateModelID modelID /\
  (models <> [] ->
   (Server_ValidateModelID models modelID = None <->
    In modelID (map ModelID models))) /\
  (forall info, Server_GetModelByID models modelID = Some info ->
     ModelID info = modelID /\
     In info (Server_GetAvailableDeepseekModels models)).
Proof.
  split; [reflexivity|]. split.
  - intros Hne. unfold Server_ValidateModelID, Server_GetModelByID,
      Server_GetAvailableDeepseekModels.
    destruct models as [|m rest]; [congruence|]. cbn [length Nat.ltb Nat.leb].
    destruct (find_model modelID (m :: rest)) as [info|] eqn:Hf.
    + split; [intros _|reflexivity].
      apply find_model_Some in Hf as [<- Hin]. apply in_map. exact Hin.
    + split; [discriminate|]. intros Hin.
      apply find_model_None in Hf. contradiction.
  - intros info. apply find_model_Some.
Qed.

Lemma Server_ValidateModelID_uses_discovered_models_witness :
  Server_ValidateModelID
    [{| ModelID := "deepseek-v3"; ModelName := "Deepseek V3";
        ModelDescription := "Model provided by deepseek" |}]
    "deepseek-chat" = None <->
  In "deepseek-chat"
    (map ModelID
       [{| ModelID := "deepseek-v3"; ModelName := "Deepseek V3";
           ModelDescription := "Model provided by deepseek" |}]).
Proof.
  apply (Server_ValidateModelID_uses_discovered_models
           [{| ModelID := "deepseek-v3"; ModelName := "Deepseek V3";
               ModelDescription := "Model provided by deepseek" |}]
           "deepseek-chat").
  discriminate.
Defined.

(** * Properties of the file checks *)

Example Ext_examples :
  map Ext ["main.go"; "a/b.tar.gz"; "dir.d/file"; "noext"; ".bashrc"; "a/"; "x."]
  = [".go"; ".gz"; ""; ""; ".bashrc"; ""; "."].
Proof. vm_compute. reflexivity. Qed.

Example ValidateFilePath_examples :
  map (fun p => ValidateFilePath (fun s => s) small_fs p defaultAllowedFileTypes)
    ["src/Main.GO"; "web/app.js"; "src"; "dump.txt"; "gone.go"]
  = [None;
     Some (New "file type not allowed: web/app.js (type: application/javascript)");
     Some (New "path is a directory, not a file: src");
     Some (New "file is too large: dump.txt (20.0 MB)");
     Some (Errorf_w "file not found or not accessible: "
             (New "stat gone.go: no such file or directory"))].
Proof. vm_compute. reflexivity. Qed.

Lemma type_allowed_In mimeType allowedTypes :
  type_allowed mimeType allowedTypes = true <-> In mimeType allowedTypes.
Proof.
  induction allowedTypes as [|t rest IH]; cbn [type_allowed In].
  - split; [discriminate | tauto].
  - destruct (String.eqb_spec mimeType t) as [->|Hne].
    + tauto.
    + rewrite IH. split; [tauto|]. intros [Heq|Hin]; [congruence | exact Hin].
Qed.

Lemma ValidateFilePath_accepts
    (unicode_ToLower : string -> string) (Stat : string -> FileInfo + error)
    (path : string) (allowedTypes : list string) :
  ValidateFilePath unicode_ToLower Stat path allowedTypes = None <->
  exists info,
    Stat path = inl info /\ IsDir info = false /\ Size info <= 10485760 /\
    (allowedTypes = [] \/
     In (getMimeTypeFromPath unicode_ToLower path) allowedTypes).
Proof.
  unfold ValidateFilePath.
  destruct (Stat path) as [info|err].
  2: { split; [discriminate|]. intros (info & H & _). discriminate. }
  destruct (IsDir info) eqn:Hdir.
  { split; [discriminate|]. intros (info' & H & Hd & _).
    injection H as <-. congruence. }
  destruct (Z.ltb_spec (10 * 1024 * 1024) (Size info)) as [Hbig|Hsmall].
  { split; [discriminate|]. intros (info' & H & _ & Hs & _).
    injection H as <-. lia. }
  destruct allowedTypes as [|t rest].
  { cbn. split; [|reflexivity]. intros _. exists info.
    repeat split; [exact Hdir | lia | left; reflexivity]. }
  cbn [length Nat.ltb Nat.leb].
  destruct (type_allowed (getMimeTypeFromPath unicode_ToLower path) (t :: rest))
    eqn:Hallowed; cbn [negb].
  - split; [|reflexivity]. intros _. exists info.
    repeat split; [exact Hdir | lia |]. right.
    apply type_allowed_In. exact Hallowed.
  - split; [discriminate|]. intros (info' & _ & _ & _ & [Hnil|Hin]);
      [discriminate|].
    apply type_allowed_In in Hin. congruence.
Qed.

(** X20. [ValidateFilePath] returns [nil] exactly for a path that
    [os.Stat] finds, that is not a directory, whose size is at most
    10 MiB (the limit is this constant, not the configured
    [MaxFileSize]) and whose MIME type is in [allowedTypes]; an empty
    [allowedTypes] allows every type. *)
Theorem ValidateFilePath_nil_iff
    (unicode_ToLower : string -> string) (Stat : string -> FileInfo + error)
    (path : string) (allowedTypes : list string) :
  ValidateFilePath unicode_ToLower Stat path allowedTypes = None <->
  exists info,
    Stat path = inl info /\ IsDir info = false /\ Size info <= 10485760 /\
    (allowedTypes = [] \/
     In (getMimeTypeFromPath unicode_ToLower path) allowedTypes).
Proof.
  unfold ValidateFilePath.
  destruct (Stat path) as [info|err].
  2: { split; [discriminate|]. intros (info & H & _). discriminate. }
  destruct (IsDir info) eqn:Hdir.
  { split; [discriminate|]. intros (info' & H & Hd & _).
    injection H as <-. congruence. }
  destruct (Z.ltb_spec (10 * 1024 * 1024) (Size info)) as [Hbig|Hsmall].
  { split; [discriminate|]. intros (info' & H & _ & Hs & _).
    injection H as <-. lia. }
  destruct allowedTypes as [|t rest].
  { cbn. split; [|reflexivity]. intros _. exists info.
    repeat split; [exact Hdir | lia | left; reflexivity]. }
  cbn [length Nat.ltb Nat.leb].
  destruct (type_allowed (getMimeTypeFromPath unicode_ToLower path) (t :: rest))
    eqn:Hallowed; cbn [negb].
  - split; [|reflexivity]. intros _. exists info.
    repeat split; [exact Hdir | lia |]. right.
    apply type_allowed_In. exact Hallowed.
  - split; [discriminate|]. intros (info' & _ & _ & _ & [Hnil|Hin]);
      [discriminate|].
    apply type_allowed_In in Hin. congruence.
Qed.

Lemma ValidateFilePath_nil_iff_witness :
  ValidateFilePath (fun s => s) small_fs "src/Main.GO" defaultAllowedFileTypes
  = None.
Proof.
  apply (ValidateFilePath_nil_iff (fun s => s) small_fs "src/Main.GO"
           defaultAllowedFileTypes).
  exists {| IsDir := false; Size := 2048 |}.
  split; [reflexivity|]. split; [reflexivity|]. split; [cbn; lia|].
  right. vm_compute. tauto.
Defined.

(** X21. Four of the default allowed types ([text/javascript],
    [text/x-c++], [text/x-yaml], [text/x-toml]) are types
    [getMimeTypeFromPath] never returns, and a [.js] file gets the type
    [application/javascript], which is not in the default list: with the
    default [AllowedFileTypes], [ValidateFilePath] rejects every file
    whose extension is [.js], whatever the file system holds. *)
Theorem default_types_reject_js
    (unicode_ToLower : string -> string) (Stat : string -> FileInfo + error)
    (path : string) :
  ~ In (getMimeTypeFromPath unicode_ToLower path)
      ["text/javascript"; "text/x-c++"; "text/x-yaml"; "text/x-toml"] /\
  (Ext path = ".js" ->
   getMimeTypeFromPath unicode_ToLower path = "application/javascript" /\
   exists e,
     ValidateFilePath unicode_ToLower Stat path defaultAllowedFileTypes = Some e).
Proof.
  split.
  - unfold getMimeTypeFromPath. cbn zeta.
    repeat match goal with
           | |- context [if ?b then _ else _] => destruct b
           end;
      cbn [In]; intros H;
      repeat (destruct H as [H|H]; [discriminate H|]); exact H.
  - intros Hext.
    assert (Hmime : getMimeTypeFromPath unicode_ToLower path
                    = "application/javascript").
    { unfold getMimeTypeFromPath. rewrite Hext. reflexivity. }
    split; [exact Hmime|].
    destruct (ValidateFilePath unicode_ToLower Stat path defaultAllowedFileTypes)
      as [e|] eqn:Hv; [exists e; reflexivity|].
    apply ValidateFilePath_accepts in Hv as (info & _ & _ & _ & [Hnil|Hin]);
      [discriminate|].
    rewrite Hmime in Hin. cbn [In defaultAllowedFileTypes] in Hin.
    repeat (destruct Hin as [Hin|Hin]; [discriminate Hin|]). destruct Hin.
Qed.

Lemma default_types_reject_js_witness :
  getMimeTypeFromPath (fun s => s) "web/app.js" = "application/javascript" /\
  exists e,
    ValidateFilePath (fun s => s) small_fs "web/app.js" defaultAllowedFileTypes
    = Some e.
Proof.
  apply (default_types_reject_js (fun s => s) small_fs "web/app.js").
  reflexivity.
Defined.
